(** * Phonics syllable tool (src/app.py): a shallow embedding and its properties

    The script is a linear Streamlit page: every whitespace-separated token of
    the input is cleaned, hyphenated by pyphen, looked up in a dictionary API
    through a session cache, explained by a small rule table, rendered as a
    card and recorded in a history ledger that can be exported.

    Conventions of the embedding
    - A Python [str] is a Rocq [string] holding its UTF-8 bytes.  The
      operations that the script applies to words ([endswith], the regular
      expressions, [split] on a hyphen) only look at ASCII characters, and a
      byte of a multi-byte UTF-8 sequence is never an ASCII byte, so they act
      on the bytes as Python acts on the code points.  [strip] and [split()]
      know the whitespace characters of [str.isspace] by their UTF-8
      encodings, one, two or three bytes long; an encoding of one of them
      never starts inside another character.  [lower] is [str.lower] on
      strings of ASCII characters, which is all the script applies it to:
      it lowers words that [re.sub] has reduced to ASCII letters and
      apostrophes, and lowers them again in [get_word_info] and
      [explain_syllable_rules].  A [str] with a lone surrogate has no UTF-8
      form and is not modelled.
    - Python [int] counters are [nat]; an HTTP status is a [Z].
    - A Python dict whose iteration order is observable (the history ledger,
      a parsed JSON object) is an association list in insertion order with
      unique keys; the dictionary cache, which is only probed by key, is a
      [gmap].
    - What the script takes from outside (pyphen, the network, [json.loads],
      [urllib.parse.quote], the clock) is a field of the record [World].
    - An exception is a value of [exn]; code that can raise returns a
      [result]. *)

From Stdlib Require Import ZArith Ascii String List Sorted Permutation Lia.
From stdpp Require Import base gmap strings list pretty.

Local Open Scope Z_scope.
Local Open Scope nat_scope.

(** ** Python string operations *)

Module Py.

Definition code (c : ascii) : nat := nat_of_ascii c.

Definition is_upper (c : ascii) : bool := (65 <=? code c) && (code c <=? 90).
Definition is_lower (c : ascii) : bool := (97 <=? code c) && (code c <=? 122).
Definition is_letter (c : ascii) : bool := is_upper c || is_lower c.

(** Whitespace, as [str.isspace] has it, in UTF-8.  One byte: TAB..CR,
    FS..US and the blank. *)
Definition is_space1 (a : ascii) : bool :=
  ((9 <=? code a) && (code a <=? 13)) || ((28 <=? code a) && (code a <=? 32)).

(** Two bytes: U+0085 and U+00A0. *)
Definition is_space2 (a b : ascii) : bool :=
  (code a =? 194) && ((code b =? 133) || (code b =? 160)).

(** Three bytes: U+1680, U+2000..U+200A, U+2028, U+2029, U+202F, U+205F
    and U+3000. *)
Definition is_space3 (a b c : ascii) : bool :=
  ((code a =? 225) && (code b =? 154) && (code c =? 128))
  || ((code a =? 226) && (code b =? 128)
      && (((128 <=? code c) && (code c <=? 138))
          || (code c =? 168) || (code c =? 169) || (code c =? 175)))
  || ((code a =? 226) && (code b =? 129) && (code c =? 159))
  || ((code a =? 227) && (code b =? 128) && (code c =? 128)).

(** The rest of the string after its first character, when that one is
    whitespace. *)
Definition leading_space (s : string) : option string :=
  match s with
  | String a r =>
      if is_space1 a then Some r
      else match r with
           | String b r2 =>
               if is_space2 a b then Some r2
               else match r2 with
                    | String c r3 => if is_space3 a b c then Some r3 else None
                    | EmptyString => None
                    end
           | EmptyString => None
           end
  | EmptyString => None
  end.

Definition lower_char (c : ascii) : ascii :=
  if is_upper c then ascii_of_nat (code c + 32) else c.

(** [s.lower()] for a string of ASCII characters: the letters A..Z are
    lowered, every other byte is kept. *)
Fixpoint lower (s : string) : string :=
  match s with
  | EmptyString => EmptyString
  | String c r => String (lower_char c) (lower r)
  end.

Definition is_empty (s : string) : bool :=
  match s with EmptyString => true | String _ _ => false end.

(** Truth value of a [str]: non-empty. *)
Definition nonempty (s : string) : bool := negb (is_empty s).

(** [s.lstrip()]: leading whitespace characters are dropped. *)
Fixpoint lstrip (s : string) : string :=
  match s with
  | EmptyString => EmptyString
  | String a r =>
      if is_space1 a then lstrip r
      else match r with
           | String b r2 =>
               if is_space2 a b then lstrip r2
               else match r2 with
                    | String c r3 => if is_space3 a b c then lstrip r3 else s
                    | EmptyString => s
                    end
           | EmptyString => s
           end
  end.

(** [s.rstrip()]: going back from the end, what is left of the string is
    dropped as long as it is a single whitespace character. *)
Fixpoint rstrip (s : string) : string :=
  match s with
  | EmptyString => EmptyString
  | String a r =>
      match leading_space (String a (rstrip r)) with
      | Some EmptyString => EmptyString
      | _ => String a (rstrip r)
      end
  end.

(** [s.strip()] *)
Definition strip (s : string) : string := rstrip (lstrip s).

(** [s.startswith(p)] *)
Fixpoint startswith (p s : string) : bool :=
  match p, s with
  | EmptyString, _ => true
  | String _ _, EmptyString => false
  | String a p', String b s' => if Ascii.eqb a b then startswith p' s' else false
  end.

(** [s.endswith(suf)]: [suf] occurs at offset [len(s) - len(suf)]. *)
Fixpoint endswith (s suf : string) : bool :=
  if String.eqb s suf then true
  else match s with
       | EmptyString => false
       | String _ r => endswith r suf
       end.

(** [s.split(sep)] for a one-character separator: always at least one
    piece, empty pieces are kept. *)
Fixpoint split_go (sep : ascii) (cur : string) (s : string) : list string :=
  match s with
  | EmptyString => [String.rev cur]
  | String c r =>
      if Ascii.eqb c sep then String.rev cur :: split_go sep EmptyString r
      else split_go sep (String c cur) r
  end.

Definition split (sep : ascii) (s : string) : list string :=
  split_go sep EmptyString s.

(** The token collected so far, if any, is complete. *)
Definition flush (cur : option string) : list string :=
  match cur with Some w => [String.rev w] | None => [] end.

(** One more byte of the current token (kept in reverse). *)
Definition push (a : ascii) (cur : option string) : option string :=
  Some (String a (match cur with Some w => w | None => EmptyString end)).

(** [s.split()]: the maximal runs of characters that are not whitespace. *)
Fixpoint words_go (cur : option string) (s : string) : list string :=
  match s with
  | EmptyString => flush cur
  | String a r =>
      if is_space1 a then flush cur ++ words_go None r
      else match r with
           | String b r2 =>
               if is_space2 a b then flush cur ++ words_go None r2
               else match r2 with
                    | String c r3 =>
                        if is_space3 a b c then flush cur ++ words_go None r3
                        else words_go (push a cur) r
                    | EmptyString => words_go (push a cur) r
                    end
           | EmptyString => words_go (push a cur) r
           end
  end.

Definition split_ws (s : string) : list string := words_go None s.

(** [sep.join(l)] *)
Definition join (sep : string) (l : list string) : string := String.concat sep l.

(** [x in l] on a list of strings. *)
Fixpoint mem (x : string) (l : list string) : bool :=
  match l with
  | [] => false
  | y :: r => if String.eqb y x then true else mem x r
  end.

(** [str(n)] for a non-negative int. *)
Definition str_of_nat (n : nat) : string := pretty n.

End Py.

(** ** The regular expressions of the script *)

Module Re.

Definition is_vowel (c : ascii) : bool :=
  match c with
  | "a" | "e" | "i" | "o" | "u" => true
  | _ => false
  end%char.

(** The class [bcdfghjklmnpqrstvwxyz]: the lowercase letters that are not
    vowels. *)
Definition is_consonant (c : ascii) : bool :=
  Py.is_lower c && negb (is_vowel c).

(** [re.sub] with the class [^A-Za-z'] and an empty replacement: every
    character that is neither a letter nor an apostrophe is deleted. *)
Fixpoint sub_non_letters (w : string) : string :=
  match w with
  | EmptyString => EmptyString
  | String c r =>
      if Py.is_letter c || Ascii.eqb c "'"%char
      then String c (sub_non_letters r)
      else sub_non_letters r
  end.

(** [re.search(r"[aeiou][bcdfghjklmnpqrstvwxyz]{2}", s)] is not [None]. *)
Fixpoint search_vcc (s : string) : bool :=
  match s with
  | String a ((String b (String c _)) as r) =>
      (is_vowel a && is_consonant b && is_consonant c) || search_vcc r
  | String _ r => search_vcc r
  | EmptyString => false
  end.

(** [re.search(r"[bcdfghjklmnpqrstvwxyz][aeiou][bcdfghjklmnpqrstvwxyz]", s)]
    is not [None]. *)
Fixpoint search_cvc (s : string) : bool :=
  match s with
  | String a ((String b (String c _)) as r) =>
      (is_consonant a && is_vowel b && is_consonant c) || search_cvc r
  | String _ r => search_cvc r
  | EmptyString => false
  end.

End Re.

(** ** The rule explainer: [explain_syllable_rules] *)

(** The dict literal [suffix_rules], in insertion order. *)
Definition suffix_rules : list (string * string) :=
  [ ("tion", "后缀 -tion 通常构成一个独立音节");
    ("sion", "后缀 -sion 通常构成一个独立音节");
    ("ing", "后缀 -ing 通常构成一个独立音节");
    ("er", "后缀 -er 常单独成音节（如 teacher, computer）");
    ("or", "后缀 -or 常单独成音节（如 actor, doctor）");
    ("ment", "后缀 -ment 常作为独立音节（如 movement）");
    ("ness", "后缀 -ness 常作为独立音节（如 kindness）");
    ("able", "后缀 -able 通常为独立音节（如 comfortable）");
    ("ible", "后缀 -ible 通常为独立音节（如 possible）") ].

(** The f-string ["· {text}"]. *)
Definition bullet (text : string) : string := "· " +:+ text.

(** [for suf, text in table: if base.endswith(suf): rules.append(..); break] *)
Fixpoint suffix_loop (table : list (string * string)) (base : string)
    (rules : list string) : list string :=
  match table with
  | [] => rules
  | (suf, text) :: rest =>
      if Py.endswith base suf then rules ++ [bullet text]
      else suffix_loop rest base rules
  end.

Definition vcc_rule : string :=
  "· VCC 结构中，元音后跟两个辅音时，一般在第一个辅音后断开（V-C-C）".
Definition cvc_rule : string :=
  "· CVC 结构中，短元音后往往在辅音处断开，形成一个自然音节".
Definition multi_rule : string :=
  "· 多音节单词通常从左到右按发音节奏自然分段".
Definition fallback_rule : string :=
  "· 根据常见发音节奏拆分音节（本词不属于常见规则范畴）".

Definition explain_syllable_rules (word : string) (syllables : list string)
    : list string :=
  let rules : list string := [] in
  let base := Py.lower word in
  let rules := suffix_loop suffix_rules base rules in
  let rules := if Re.search_vcc base then rules ++ [vcc_rule] else rules in
  let rules := if Re.search_cvc base then rules ++ [cvc_rule] else rules in
  let rules := if 3 <=? length syllables then rules ++ [multi_rule] else rules in
  let rules := match rules with [] => rules ++ [fallback_rule] | _ => rules end in
  rules.


(** ** Exceptions and results *)

Inductive exn : Type :=
  | URLError
  | TimeoutError
  | JSONDecodeError
  | UnicodeDecodeError
  | AttributeError
  | OtherException.

Inductive result (A : Type) : Type :=
  | Ok (a : A)
  | Raise (e : exn).

Arguments Ok {A} a.
Arguments Raise {A} e.

Definition rbind {A B : Type} (r : result A) (k : A -> result B) : result B :=
  match r with
  | Ok a => k a
  | Raise e => Raise e
  end.

Notation "'let!' x ':=' r 'in' k" := (rbind r (fun x => k))
  (at level 10, x name, r at level 100, k at level 200).

(** ** Parsed JSON documents

    What [json.loads] returns: [None], a [bool], an [int], a [float], a
    [str], a [list] or a [dict].  The script only tests a number for its
    truth value, so a float is kept as the flag "is not zero". *)

#[warnings="-register-all"]
Inductive json : Type :=
  | JNull
  | JBool (b : bool)
  | JInt (z : Z)
  | JFloat (nonzero : bool)
  | JStr (s : string)
  | JArr (items : list json)
  | JObj (fields : list (string * json)).

(** Python truth value. *)
Definition truthy (v : json) : bool :=
  match v with
  | JNull => false
  | JBool b => b
  | JInt z => negb (Z.eqb z 0)
  | JFloat nz => nz
  | JStr s => Py.nonempty s
  | JArr items => match items with [] => false | _ => true end
  | JObj fields => match fields with [] => false | _ => true end
  end.

Fixpoint assoc_get {V : Type} (k : string) (kv : list (string * V)) : option V :=
  match kv with
  | [] => None
  | (k', v) :: rest => if String.eqb k' k then Some v else assoc_get k rest
  end.

(** [o.get(k)]: [None] when the key is missing, [AttributeError] when [o]
    is not a dict (no other JSON value has a [get] attribute). *)
Definition py_get (o : json) (k : string) : result json :=
  match o with
  | JObj fields =>
      Ok (match assoc_get k fields with Some v => v | None => JNull end)
  | _ => Raise AttributeError
  end.

(** [v or []] *)
Definition or_empty_list (v : json) : json :=
  if truthy v then v else JArr [].

(** ** The dictionary resolver *)

Record WordInfo : Type := mkWordInfo {
  ipa : option string;
  pos : option string;
  definition : option string;
  example : option string;
  synonyms : list string
}.

Definition base_result : WordInfo :=
  {| ipa := None; pos := None; definition := None; example := None;
     synonyms := [] |}.

(** What [urlopen] does: it raises, or it yields a response with a status
    and a body; [None] as body stands for [resp.read().decode] raising. *)
Inductive http_outcome : Type :=
  | HttpRaise (e : exn)
  | HttpResp (status : Z) (body : option string).

(** The outside of the script.  The network and the clock may answer
    differently each time: they take the number of earlier calls. *)
Record World : Type := mkWorld {
  inserted : string -> string;             (* pyphen: dic.inserted *)
  quote : string -> string;                (* urllib.parse.quote *)
  urlopen : nat -> string -> http_outcome; (* urllib.request.urlopen *)
  json_loads : string -> option json;      (* None: JSONDecodeError *)
  now : nat -> string                      (* datetime.now().strftime(..) *)
}.

Definition api_url (env : World) (word : string) : string :=
  "https://api.dictionaryapi.dev/api/v2/entries/en/" +:+ quote env word.

(** The loop over [phonetics]: the first [text] that is a string with
    something left after [strip] replaces [ipa] and ends the loop. *)
Fixpoint scan_phonetics (ps : list json) (ipa0 : json) : result json :=
  match ps with
  | [] => Ok ipa0
  | p :: rest =>
      let! text := py_get p "text" in
      match text with
      | JStr t =>
          if Py.nonempty (Py.strip t) then Ok (JStr (Py.strip t))
          else scan_phonetics rest ipa0
      | _ => scan_phonetics rest ipa0
      end
  end.

(** The candidate for the IPA (lines 124-132). *)
Definition ipa_candidate (entry : json) : result json :=
  let! ipa0 := py_get entry "phonetic" in
  if negb (truthy ipa0) then
    let! ph := py_get entry "phonetics" in
    match or_empty_list ph with
    | JArr ps => scan_phonetics ps ipa0
    | _ => Ok ipa0
    end
  else Ok ipa0.

(** Lines 133-138: a string with content is stripped and, unless it starts
    with a slash or a bracket, put between slashes. *)
Definition wrap_ipa (s : string) : string :=
  if Py.startswith "/" s || Py.startswith "[" s then s
  else "/" +:+ s +:+ "/".

Definition ipa_of_candidate (cand : json) : option string :=
  match cand with
  | JStr s =>
      if Py.nonempty (Py.strip s) then Some (wrap_ipa (Py.strip s)) else None
  | _ => None
  end.

(** [isinstance(v, str) and v.strip()], then [v.strip()] is stored. *)
Definition stripped_text (v : json) : option string :=
  match v with
  | JStr s => if Py.nonempty (Py.strip s) then Some (Py.strip s) else None
  | _ => None
  end.

(** The loop that fills [uniq] (lines 164-169). *)
Fixpoint uniq_loop (syns : list json) (uniq : list string) : list string :=
  match syns with
  | [] => uniq
  | s :: rest =>
      match s with
      | JStr t =>
          let s_clean := Py.strip t in
          if Py.nonempty s_clean && negb (Py.mem s_clean uniq)
          then uniq_loop rest (uniq ++ [s_clean])
          else uniq_loop rest uniq
      | _ => uniq_loop rest uniq
      end
  end.

(** Lines 148-170, on the first meaning [m]; [r] is [base_result] so far. *)
Definition extract_definitions (m : json) (r : WordInfo) : result WordInfo :=
  let! defs0 := py_get m "definitions" in
  match or_empty_list defs0 with
  | JArr (d0 :: _) =>
      let! definition0 := py_get d0 "definition" in
      let r := match stripped_text definition0 with
               | Some d => {| ipa := ipa r; pos := pos r; definition := Some d;
                              example := example r; synonyms := synonyms r |}
               | None => r
               end in
      let! example0 := py_get d0 "example" in
      let r := match stripped_text example0 with
               | Some e => {| ipa := ipa r; pos := pos r;
                              definition := definition r; example := Some e;
                              synonyms := synonyms r |}
               | None => r
               end in
      let! syns0 := py_get d0 "synonyms" in
      match or_empty_list syns0 with
      | JArr syns =>
          Ok {| ipa := ipa r; pos := pos r; definition := definition r;
                example := example r;
                synonyms := take 5 (uniq_loop syns []) |}
      | _ => Ok r
      end
  | _ => Ok r
  end.

(** Lines 141-170. *)
Definition extract_meanings (entry : json) (r : WordInfo) : result WordInfo :=
  let! meanings0 := py_get entry "meanings" in
  match or_empty_list meanings0 with
  | JArr (m :: _) =>
      let! pos0 := py_get m "partOfSpeech" in
      let r := match stripped_text pos0 with
               | Some p => {| ipa := ipa r; pos := Some p;
                              definition := definition r;
                              example := example r; synonyms := synonyms r |}
               | None => r
               end in
      extract_definitions m r
  | _ => Ok r
  end.

(** Lines 121-172: everything after the [try] block, where nothing is
    caught any more. *)
Definition extract_entry (entry : json) : result WordInfo :=
  let! cand := ipa_candidate entry in
  let r := match ipa_of_candidate cand with
           | Some i => {| ipa := Some i; pos := pos base_result;
                          definition := definition base_result;
                          example := example base_result;
                          synonyms := synonyms base_result |}
           | None => base_result
           end in
  extract_meanings entry r.

(** What the [try] block leaves in [js]: [None] when the function has
    already returned [base_result] from inside it (an exception of any
    kind, a status other than 200, a body that does not decode or parse). *)
Definition try_block (env : World) (calls : nat) (word : string) : option json :=
  match urlopen env calls (api_url env word) with
  | HttpRaise _ => None
  | HttpResp status body =>
      if negb (Z.eqb status 200) then None
      else match body with
           | None => None
           | Some data => json_loads env data
           end
  end.

(** [fetch_word_info_from_api]; [calls] counts the requests made before. *)
Definition fetch_word_info_from_api (env : World) (calls : nat) (word : string)
    : result WordInfo :=
  match try_block env calls word with
  | None => Ok base_result
  | Some js =>
      match js with
      | JArr (entry :: _) => extract_entry entry
      | _ => Ok base_result
      end
  end.

(** ** Session state *)

(** A record of the history ledger; the dict keys of the script are, in
    order: 时间, 次数, 原始输入, 标准单词, 音节分隔, 音节数, IPA. *)
Record HistoryRecord : Type := mkHistoryRecord {
  h_time : string;
  h_count : nat;
  h_raw : string;
  h_base : string;
  h_split : string;
  h_syllables : nat;
  h_ipa : string
}.

(** [st.session_state], with two ghost fields for the outside world: the
    URLs opened so far and the number of clock reads so far. *)
Record Session : Type := mkSession {
  dict_cache : gmap string WordInfo;
  history : list (string * HistoryRecord);
  requests : list string;
  ticks : nat
}.

Definition empty_session : Session :=
  {| dict_cache := ∅; history := []; requests := []; ticks := 0 |}.

(** [get_word_info]: the cache is probed first; a fetched record is stored
    under the lowercase key unless the fetch raised. *)
Definition get_word_info (env : World) (st : Session) (word : string)
    : Session * result WordInfo :=
  let key := Py.lower word in
  match dict_cache st !! key with
  | Some info => (st, Ok info)
  | None =>
      let asked := requests st ++ [api_url env key] in
      match fetch_word_info_from_api env (length (requests st)) key with
      | Ok info =>
          ({| dict_cache := <[key := info]> (dict_cache st);
              history := history st; requests := asked; ticks := ticks st |},
           Ok info)
      | Raise e =>
          ({| dict_cache := dict_cache st; history := history st;
              requests := asked; ticks := ticks st |},
           Raise e)
      end
  end.

(** ** The history ledger *)

Definition dict_mem {V : Type} (k : string) (d : list (string * V)) : bool :=
  match assoc_get k d with Some _ => true | None => false end.

(** In-place change of the value stored under [k]. *)
Fixpoint dict_alter {V : Type} (f : V -> V) (k : string) (d : list (string * V))
    : list (string * V) :=
  match d with
  | [] => []
  | (k', v) :: rest =>
      if String.eqb k' k then (k', f v) :: rest
      else (k', v) :: dict_alter f k rest
  end.

(** Lines 359-376. *)
Definition update_history (h : list (string * HistoryRecord))
    (base now_str w pretty : string) (cnt : nat) (ipa_for_history : string)
    : list (string * HistoryRecord) :=
  if dict_mem base h then
    dict_alter
      (fun entry =>
         {| h_time := now_str; h_count := h_count entry + 1; h_raw := w;
            h_base := h_base entry; h_split := pretty; h_syllables := cnt;
            h_ipa := ipa_for_history |})
      base h
  else
    h ++ [(base,
           {| h_time := now_str; h_count := 1; h_raw := w; h_base := base;
              h_split := pretty; h_syllables := cnt;
              h_ipa := ipa_for_history |})].

(** ** The main loop *)

(** What a card shows (the HTML around it is left out). *)
Record Card : Type := mkCard {
  card_word : string;
  card_pretty : string;
  card_cnt : nat;
  card_ipa : option string;
  card_definition : option (option string * string);
  card_example : option string;
  card_synonyms : list string;
  card_rules : list string;
  card_audio : string
}.

(** A string that is present and not empty. *)
Definition shown (o : option string) : option string :=
  match o with
  | Some s => if Py.nonempty s then Some s else None
  | None => None
  end.

Definition audio_url (env : World) (base : string) : string :=
  "https://dict.youdao.com/dictvoice?audio=" +:+ quote env base +:+ "&type=2".

(** The state of one run of the page: the session, the two counters of the
    loop and the cards rendered so far. *)
Record Page : Type := mkPage {
  session : Session;
  total_words : nat;
  total_syllables : nat;
  cards : list Card
}.

Definition start_page (st : Session) : Page :=
  {| session := st; total_words := 0; total_syllables := 0; cards := [] |}.

(** The body of [for w in words] (lines 249-376).  The second component is
    the exception that ended the run, if any. *)
Definition process_word (env : World) (pg : Page) (w : string)
    : Page * option exn :=
  let clean_word := Re.sub_non_letters w in
  if Py.is_empty clean_word then (pg, None)
  else
    let base := Py.lower clean_word in
    let words' := total_words pg + 1 in
    let hyphenated := inserted env base in
    let syllables := Py.split "-"%char hyphenated in
    let cnt := length syllables in
    let syllables' := total_syllables pg + cnt in
    let pretty := Py.join "·" syllables in
    match get_word_info env (session pg) base with
    | (st, Raise e) =>
        ({| session := st; total_words := words';
            total_syllables := syllables'; cards := cards pg |}, Some e)
    | (st, Ok info) =>
        let ipa_text := ipa info in
        let rules := explain_syllable_rules base syllables in
        let card :=
          {| card_word := w; card_pretty := pretty; card_cnt := cnt;
             card_ipa := shown ipa_text;
             card_definition :=
               match shown (definition info) with
               | Some d => Some (shown (pos info), d)
               | None => None
               end;
             card_example := shown (example info);
             card_synonyms := synonyms info;
             card_rules := rules;
             card_audio := audio_url env base |} in
        let now_str := now env (ticks st) in
        let ipa_for_history :=
          match ipa_text with Some s => s | None => EmptyString end in
        let st' :=
          {| dict_cache := dict_cache st;
             history := update_history (history st) base now_str w pretty cnt
                          ipa_for_history;
             requests := requests st; ticks := ticks st + 1 |} in
        ({| session := st'; total_words := words';
            total_syllables := syllables'; cards := cards pg ++ [card] |},
         None)
    end.

Fixpoint process_words (env : World) (pg : Page) (words : list string)
    : Page * option exn :=
  match words with
  | [] => (pg, None)
  | w :: rest =>
      match process_word env pg w with
      | (pg', None) => process_words env pg' rest
      | (pg', Some e) => (pg', Some e)
      end
  end.

(** Lines 241-391: nothing is processed when the text is blank. *)
Definition run_input (env : World) (st : Session) (text : string)
    : Page * option exn :=
  if Py.nonempty (Py.strip text)
  then process_words env (start_page st) (Py.split_ws (Py.strip text))
  else (start_page st, None).

(** ** Export *)

Definition headers : list string :=
  ["时间"; "次数"; "原始输入"; "标准单词"; "音节分隔"; "音节数"; "IPA"].

Definition tab : string := String (ascii_of_nat 9) EmptyString.

(** [sorted(records, key=lambda x: x["时间"])]: a stable sort by the
    timestamp string, here by insertion from the right. *)
Fixpoint insert_by_time (x : HistoryRecord) (l : list HistoryRecord)
    : list HistoryRecord :=
  match l with
  | [] => [x]
  | y :: r =>
      if String.leb (h_time x) (h_time y) then x :: y :: r
      else y :: insert_by_time x r
  end.

Fixpoint sorted_by_time (l : list HistoryRecord) : list HistoryRecord :=
  match l with
  | [] => []
  | x :: r => insert_by_time x (sorted_by_time r)
  end.

(** The list handed to [writer.writerow] for one record. *)
Definition csv_row (item : HistoryRecord) : list string :=
  [h_time item; Py.str_of_nat (h_count item); h_raw item; h_base item;
   h_split item; Py.str_of_nat (h_syllables item); h_ipa item].

(** One line of the TXT export. *)
Definition txt_line (item : HistoryRecord) : string :=
  Py.join tab (csv_row item).

(** The two exports: the rows given to the CSV writer in order, and the
    lines of the text file before they are joined.  [None] is the branch
    that shows "no history" and offers no download. *)
Record Export : Type := mkExport {
  csv_rows : list (list string);
  txt_lines : list string
}.


Definition export (history_dict : list (string * HistoryRecord)) : option Export :=
  match history_dict with
  | [] => None
  | _ =>
      let records := map snd history_dict in
      Some {| csv_rows := headers :: map csv_row (sorted_by_time records);
              txt_lines := Py.join tab headers
                             :: map txt_line (sorted_by_time records) |}
  end.

(** ** Worlds used in the examples *)

(** pyphen on the words of the examples; other words are left whole. *)
Definition example_inserted (s : string) : string :=
  if String.eqb s "computer" then "com-put-er"
  else if String.eqb s "teacher" then "teach-er"
  else s.

(** No network: every request raises [URLError]. *)
Definition offline_world : World :=
  {| inserted := example_inserted;
     quote := fun s => s;
     urlopen := fun _ _ => HttpRaise URLError;
     json_loads := fun _ => None;
     now := fun n => "2024-05-01 10:00:0" +:+ Py.str_of_nat n |}.

(** A server that answers every request with status 200 and a body that
    parses to [js]. *)
Definition canned_world (js : json) : World :=
  {| inserted := example_inserted;
     quote := fun s => s;
     urlopen := fun _ _ => HttpResp 200 (Some "body");
     json_loads := fun _ => Some js;
     now := fun n => "2024-05-01 10:00:0" +:+ Py.str_of_nat n |}.

(** ** Notions used to state the properties *)

(** The rules that fired, before the fallback is considered. *)
Definition fired (word : string) (syllables : list string) : list string :=
  suffix_loop suffix_rules (Py.lower word) []
  ++ (if Re.search_vcc (Py.lower word) then [vcc_rule] else [])
  ++ (if Re.search_cvc (Py.lower word) then [cvc_rule] else [])
  ++ (if 3 <=? length syllables then [multi_rule] else []).

(** [s] is the bulleted explanation of an entry of [suffix_rules]. *)
Definition is_suffix_text (s : string) : bool :=
  existsb (fun e => String.eqb (bullet (snd e)) s) suffix_rules.

(** The failures of the fetch: the request raises (network error, timeout,
    an HTTP error status), the status is not 200, the body does not decode
    or is not JSON, or the JSON document is not a non-empty array. *)
Definition is_nonempty_array (js : json) : bool :=
  match js with
  | JArr (_ :: _) => true
  | _ => false
  end.

Definition fetch_fails (env : World) (calls : nat) (key : string) : bool :=
  match urlopen env calls (api_url env key) with
  | HttpRaise _ => true
  | HttpResp status body =>
      negb (Z.eqb status 200)
      || match body with
         | None => true
         | Some data =>
             match json_loads env data with
             | None => true
             | Some js => negb (is_nonempty_array js)
             end
         end
  end.

(** Removal of duplicates that keeps the first occurrence of every string
    and the order of the first occurrences. *)
Fixpoint dedup_first (l : list string) : list string :=
  match l with
  | [] => []
  | x :: r => x :: List.filter (fun y => negb (String.eqb y x)) (dedup_first r)
  end.

(** Reading of a document along a path: the value of a key (null when the
    value is not an object or has no such key) and the first item of an
    array. *)
Definition field (k : string) (v : json) : json :=
  match v with
  | JObj fields => match assoc_get k fields with Some x => x | None => JNull end
  | _ => JNull
  end.

Definition first_item (v : json) : option json :=
  match v with
  | JArr (x :: _) => Some x
  | _ => None
  end.

(** The [synonyms] array of the first definition of a meaning, empty when
    there is no such array. *)
Definition synonyms_of_meaning (m : json) : list json :=
  match first_item (field "definitions" m) with
  | Some d0 => match field "synonyms" d0 with JArr syns => syns | _ => [] end
  | None => []
  end.

(** The [synonyms] array of the first definition of the first meaning of
    the first entry of the document. *)
Definition source_synonyms (js : json) : list json :=
  match first_item js with
  | Some entry =>
      match first_item (field "meanings" entry) with
      | Some m => synonyms_of_meaning m
      | None => []
      end
  | None => []
  end.

(** The strings of a JSON list, stripped, without the blank ones. *)
Definition clean_strings (l : list json) : list string :=
  omap stripped_text l.

(** The IPA extraction read literally: the direct [phonetic] string when
    it is present and not empty, else the [text] of the first element of
    [phonetics] that has a non-empty one; the string is put between slashes
    unless it starts with a slash or a bracket. *)
Definition nonempty_string (v : json) : option string :=
  match v with
  | JStr s => if Py.nonempty s then Some s else None
  | _ => None
  end.

Fixpoint first_nonempty_text (ps : list json) : option string :=
  match ps with
  | [] => None
  | p :: rest =>
      match nonempty_string (field "text" p) with
      | Some t => Some t
      | None => first_nonempty_text rest
      end
  end.

Definition ipa_read_literally (entry : json) : option string :=
  let chosen :=
    match nonempty_string (field "phonetic" entry) with
    | Some s => Some s
    | None =>
        match field "phonetics" entry with
        | JArr ps => first_nonempty_text ps
        | _ => None
        end
    end in
  match chosen with
  | Some s =>
      Some (if Py.startswith "/" s || Py.startswith "[" s then s
            else "/" +:+ s +:+ "/")
  | None => None
  end.

(** A blank string: nothing is left after [strip]. *)
Definition blank (s : string) : bool := Py.is_empty (Py.strip s).

(** Nothing to strip on the left: no whitespace character at the start. *)
Definition left_clean (s : string) : bool :=
  match Py.leading_space s with Some _ => false | None => true end.

(** The [text] of a [phonetics] element is not usable: it is not a string
    or it is blank. *)
Definition unusable_text (p : json) : bool :=
  match field "text" p with
  | JStr t => blank t
  | _ => true
  end.

Definition is_object (v : json) : bool :=
  match v with JObj _ => true | _ => false end.

(** The IPA that lines 124-138 leave in [base_result], on its own. *)
Definition ipa_extraction (entry : json) : result (option string) :=
  let! cand := ipa_candidate entry in
  Ok (ipa_of_candidate cand).

(** Documents of the examples. *)
Definition synonyms_document : json :=
  JArr [JObj [("word", JStr "happy");
              ("meanings",
               JArr [JObj [("partOfSpeech", JStr "adjective");
                           ("definitions",
                            JArr [JObj [("definition", JStr "Feeling joy.");
                                        ("synonyms",
                                         JArr [JStr "  glad"; JStr "merry";
                                               JStr "glad"; JInt 7; JStr " ";
                                               JStr "merry "; JStr "joyful";
                                               JStr "cheerful"; JStr "content";
                                               JStr "jolly"; JStr "upbeat"])];
                                  JObj [("synonyms", JArr [JStr "other"])]])];
                     JObj [("partOfSpeech", JStr "noun")]])]].

Definition padded_phonetic_entry : json :=
  JObj [("phonetic", JStr " abc "); ("phonetics", JArr [])].

Definition phonetics_entry : json :=
  JObj [("phonetics",
         JArr [JObj [("audio", JStr "a.mp3")];
               JObj [("text", JStr "  ")];
               JObj [("text", JStr "[helo] ")];
               JObj [("text", JStr "/late/")]])].

Definition blank_phonetic_entry : json :=
  JObj [("phonetic", JStr " ");
        ("phonetics", JArr [JObj [("text", JStr "/a/")]])].

(** An entry on which no [get] is called on something other than a dict:
    the entry, the elements of its [phonetics] list, its first meaning and
    the first definition of that meaning are objects. *)
Definition all_objects (v : json) : bool :=
  match v with
  | JArr l => forallb is_object l
  | _ => true
  end.

Definition well_shaped (entry : json) : bool :=
  is_object entry
  && all_objects (field "phonetics" entry)
  && match first_item (field "meanings" entry) with
     | Some m =>
         is_object m
         && match first_item (field "definitions" m) with
            | Some d0 => is_object d0
            | None => true
            end
     | None => true
     end.

(** ** Notions about the ledger and the runs of the page *)

(** Every character of [s] passes the test [f]. *)
Fixpoint string_forall (f : ascii -> bool) (s : string) : bool :=
  match s with
  | EmptyString => true
  | String c r => f c && string_forall f r
  end.

(** A token without any letter. *)
Definition only_non_letters (w : string) : bool :=
  string_forall (fun c => negb (Py.is_letter c)) w.

(** A token without any letter and without any apostrophe. *)
Definition no_letter_no_apostrophe (w : string) : bool :=
  string_forall (fun c => negb (Py.is_letter c) && negb (Ascii.eqb c "'"%char)) w.

(** A canonical word: not empty, lowercase letters and apostrophes only. *)
Definition is_canonical (k : string) : bool :=
  Py.nonempty k
  && string_forall (fun c => Py.is_lower c || Ascii.eqb c "'"%char) k.

(** The canonical word of a token: cleaned, then lowered. *)
Definition canonical (w : string) : string := Py.lower (Re.sub_non_letters w).

(** The record stored under a key names that key, and the key is a
    canonical word. *)
Definition key_matches (h : list (string * HistoryRecord)) : Prop :=
  Forall (fun kr => h_base kr.2 = kr.1 /\ is_canonical kr.1 = true) h.


(** Every record counts at least one syllable. *)
Definition syllables_positive (h : list (string * HistoryRecord)) : Prop :=
  Forall (fun kr => 1 <= h_syllables kr.2) h.

(** What the user does on the page: enter a text, which runs the loop, or
    press the button that empties the ledger (line 461).  What a run has
    written to the session stays, also when the run ended with an
    exception. *)
Inductive action : Type :=
  | EnterText (text : string)
  | ClearHistory.

Definition act (env : World) (st : Session) (a : action) : Session :=
  match a with
  | EnterText text => session (run_input env st text).1
  | ClearHistory =>
      {| dict_cache := dict_cache st; history := []; requests := requests st;
         ticks := ticks st |}
  end.

(** The session after a sequence of actions. *)
Fixpoint run_actions (env : World) (st : Session) (actions : list action)
    : Session :=
  match actions with
  | [] => st
  | a :: rest => run_actions env (act env st a) rest
  end.

(** The timestamps are in ascending order. *)
Definition time_le (a b : HistoryRecord) : Prop :=
  String.leb (h_time a) (h_time b) = true.


(** A ledger of three words, looked up in this order; the second one was
    looked up again later. *)
Definition example_ledger : list (string * HistoryRecord) :=
  [("computer", mkHistoryRecord "2024-05-01 10:00:07" 1 "Computer," "computer"
                  "com·put·er" 3 "/abc/");
   ("cat", mkHistoryRecord "2024-05-01 10:00:09" 2 "CAT" "cat" "cat" 1 EmptyString);
   ("teacher", mkHistoryRecord "2024-05-01 10:00:08" 1 "teacher" "teacher"
                 "teach·er" 2 EmptyString)].

(** ** The history table (lines 404-407)

    [sorted(records, key=lambda x: x["时间"], reverse=True)]: the stable
    sort in descending order, in which records with the same timestamp
    keep the order of the ledger. *)
Fixpoint insert_by_time_desc (x : HistoryRecord) (l : list HistoryRecord)
    : list HistoryRecord :=
  match l with
  | [] => [x]
  | y :: r =>
      if String.leb (h_time y) (h_time x) then x :: y :: r
      else y :: insert_by_time_desc x r
  end.

Fixpoint sorted_by_time_desc (l : list HistoryRecord) : list HistoryRecord :=
  match l with
  | [] => []
  | x :: r => insert_by_time_desc x (sorted_by_time_desc r)
  end.

(** What [st.table] is given; [None] when the page says that there is no
    history yet. *)
Definition history_table (history_dict : list (string * HistoryRecord))
    : option (list HistoryRecord) :=
  match history_dict with
  | [] => None
  | _ => Some (sorted_by_time_desc (map snd history_dict))
  end.

(** ** Notions used to state the further properties *)

(** The suffix entries that the word ends with. *)
Definition matching_suffixes (base : string) : list (string * string) :=
  List.filter (fun e => Py.endswith base e.1) suffix_rules.

(** A string with content and without surrounding whitespace. *)
Definition is_stripped (s : string) : bool :=
  Py.nonempty s && String.eqb (Py.strip s) s.

(** A string that starts with a slash or a bracket. *)
Definition is_delimited (s : string) : bool :=
  Py.startswith "/" s || Py.startswith "[" s.

(** An optional string passes a test when it is absent or passes it. *)
Definition opt_all (f : string -> bool) (o : option string) : bool :=
  match o with Some s => f s | None => true end.

(** A token that the loop counts: it has a letter or an apostrophe. *)
Definition counted (w : string) : bool := negb (no_letter_no_apostrophe w).

(** The canonical words of the counted tokens, in order. *)
Definition canonical_words (words : list string) : list string :=
  map canonical (List.filter counted words).

(** The count stored for a key, 0 when the key is absent. *)
Definition ledger_count (k : string) (h : list (string * HistoryRecord)) : nat :=
  match assoc_get k h with Some e => h_count e | None => 0 end.

(** Number of occurrences of a string in a list. *)
Definition occurrences (k : string) (l : list string) : nat :=
  length (List.filter (String.eqb k) l).

(** The syllables shown on the cards, added up. *)
Definition card_syllables (cs : list Card) : nat :=
  list_sum (map card_cnt cs).

(** [ipa_text or ""] *)
Definition ipa_or_empty (info : WordInfo) : string :=
  match ipa info with Some s => s | None => EmptyString end.

(** The hyphenated word with a middle dot in place of every hyphen. *)
Fixpoint dots_for_hyphens (s : string) : string :=
  match s with
  | EmptyString => EmptyString
  | String c r =>
      if Ascii.eqb c "-"%char then "·" +:+ dots_for_hyphens r
      else String c (dots_for_hyphens r)
  end.

Fixpoint count_hyphens (s : string) : nat :=
  match s with
  | EmptyString => 0
  | String c r => (if Ascii.eqb c "-"%char then 1 else 0) + count_hyphens r
  end.

(** What a record of the ledger owes to its key in a world: the raw input
    cleans to the key, the split and the syllable number are those of the
    key, and the count is positive. *)
Definition record_of_key (env : World) (kr : string * HistoryRecord) : Prop :=
  canonical (h_raw kr.2) = kr.1
  /\ h_split kr.2 = Py.join "·" (Py.split "-"%char (inserted env kr.1))
  /\ h_syllables kr.2 = length (Py.split "-"%char (inserted env kr.1))
  /\ 1 <= h_count kr.2.

(** The session is coherent: a cached key is a canonical word whose URL has
    been requested, and the IPA of a ledger record is the cached one. *)
Definition cache_coherent (env : World) (st : Session) : Prop :=
  (forall k info, dict_cache st !! k = Some info ->
     is_canonical k = true /\ In (api_url env k) (requests st))
  /\ Forall (fun kr => exists info,
                dict_cache st !! kr.1 = Some info
                /\ h_ipa kr.2 = ipa_or_empty info) (history st).

(** Every string of a record is clean: a delimited IPA, stripped texts. *)
Definition record_clean (info : WordInfo) : bool :=
  opt_all (fun s => Py.nonempty s && is_delimited s) (ipa info)
  && opt_all is_stripped (pos info)
  && opt_all is_stripped (definition info)
  && opt_all is_stripped (example info)
  && forallb is_stripped (synonyms info).

(** The first definition of the first meaning of an entry. *)
Definition first_meaning (entry : json) : option json :=
  first_item (field "meanings" entry).

Definition first_definition (entry : json) : option json :=
  match first_meaning entry with
  | Some m => first_item (field "definitions" m)
  | None => None
  end.

(** A field of an optional object as a stripped string with content. *)
Definition text_field (k : string) (o : option json) : option string :=
  match o with
  | Some v => stripped_text (field k v)
  | None => None
  end.

(** Membership of a character in a class written as a string. *)
Fixpoint in_class (c : ascii) (class : string) : bool :=
  match class with
  | EmptyString => false
  | String x r => Ascii.eqb c x || in_class c r
  end.

(** The string has a window of three characters that pass the tests. *)
Definition has_window (p1 p2 p3 : ascii -> bool) (s : string) : Prop :=
  exists pre a b c post,
    s = pre +:+ String a (String b (String c post))
    /\ p1 a = true /\ p2 b = true /\ p3 c = true.

(** All counted tokens of the list have their canonical word in the cache. *)
Definition all_cached (words : list string) (st : Session) : Prop :=
  forall w, In w words -> counted w = true ->
    is_Some (dict_cache st !! canonical w).

(** The no-break space U+00A0 and the ideographic space U+3000 in UTF-8. *)
Definition nbsp : string :=
  String (ascii_of_nat 194) (String (ascii_of_nat 160) EmptyString).

Definition ideographic_space : string :=
  String (ascii_of_nat 227)
    (String (ascii_of_nat 128) (String (ascii_of_nat 128) EmptyString)).

(** A document whose strings are padded with no-break spaces. *)
Definition nbsp_document : json :=
  JArr [JObj [("phonetic", JStr (nbsp +:+ "abc" +:+ nbsp));
              ("meanings",
               JArr [JObj [("partOfSpeech", JStr ("noun" +:+ nbsp));
                           ("definitions",
                            JArr [JObj [("definition", JStr nbsp);
                                        ("synonyms",
                                         JArr [JStr ("a" +:+ nbsp); JStr "a";
                                               JStr "b"; JStr "c"; JStr "d";
                                               JStr "e"])]])]])]].






(** A string of ASCII characters. *)
Definition is_ascii (s : string) : bool :=
  string_forall (fun c => Py.code c <? 128) s.

(** A document whose first entry is not an object. *)
Definition non_object_document : json := JArr [JInt 5].

(** * Properties *)

(** ** Rule explainer *)

Section RuleExplainer.

Implicit Types (table : list (string * string)) (base word : string)
  (rules syllables : list string).

Lemma suffix_loop_acc table base rules :
  suffix_loop table base rules = rules ++ suffix_loop table base [].
Proof.
  induction table as [|[suf text] rest IH]; simpl.
  - by rewrite app_nil_r.
  - destruct (Py.endswith base suf); [done | apply IH].
Qed.

Lemma explain_fired word syllables :
  explain_syllable_rules word syllables =
    match fired word syllables with
    | [] => [fallback_rule]
    | r => r
    end.
Proof.
  unfold explain_syllable_rules, fired.
  destruct (suffix_loop suffix_rules (Py.lower word) []) as [|x l];
    destruct (Re.search_vcc (Py.lower word));
    destruct (Re.search_cvc (Py.lower word));
    destruct (3 <=? length syllables); simpl;
    rewrite <- ?app_assoc; simpl; rewrite ?app_nil_r; reflexivity.
Qed.

(** The loop stops at the first entry that matches: an entry at index [i]
    that matches, with none matching before it, is the only one whose
    text is appended, whatever comes after it in the table. *)
Lemma suffix_loop_first_match table base rules i suf text :
  table !! i = Some (suf, text) ->
  Py.endswith base suf = true ->
  (forall j suf' text', j < i -> table !! j = Some (suf', text') ->
     Py.endswith base suf' = false) ->
  suffix_loop table base rules = rules ++ [bullet text].
Proof.
  revert i. induction table as [|[s0 t0] rest IH]; intros i Hi Hm Hfirst.
  - by rewrite lookup_nil in Hi.
  - destruct i as [|i]; simpl in *.
    + injection Hi as -> ->. by rewrite Hm.
    + rewrite (Hfirst 0 s0 t0); [|lia|done].
      apply (IH i); [done..|].
      intros j suf' text' Hj Hl. apply (Hfirst (S j) suf' text'); [lia|done].
Qed.

Lemma suffix_loop_no_match table base rules :
  (forall suf text, In (suf, text) table -> Py.endswith base suf = false) ->
  suffix_loop table base rules = rules.
Proof.
  induction table as [|[s0 t0] rest IH]; intros H; simpl; [done|].
  rewrite (H s0 t0); [|by left]. apply IH. intros. apply (H suf text). by right.
Qed.

(** Whatever the loop appends is the bulleted text of a table entry. *)
Lemma suffix_loop_cases table base :
  suffix_loop table base [] = []
  \/ exists suf text, In (suf, text) table /\
       suffix_loop table base [] = [bullet text].
Proof.
  induction table as [|[s0 t0] rest IH]; simpl; [by left|].
  destruct (Py.endswith base s0).
  - right. exists s0, t0. split; [by left | done].
  - destruct IH as [IH | (suf & text & Hin & IH)]; [by left|].
    right. exists suf, text. split; [by right | done].
Qed.

(** A synthetic table in which two entries match the same word: the
    earlier one wins, in either order. *)
Example suffix_loop_two_matches :
  suffix_loop [("er", "first"); ("ter", "second")] "water" [] = [bullet "first"]
  /\ suffix_loop [("ter", "second"); ("er", "first")] "water" [] = [bullet "second"].
Proof. split; reflexivity. Qed.

Lemma is_suffix_text_spec suf text :
  In (suf, text) suffix_rules -> is_suffix_text (bullet text) = true.
Proof.
  intros Hin. unfold is_suffix_text. apply existsb_exists.
  exists (suf, text). split; [done|]. apply String.eqb_refl.
Qed.

Lemma fired_tail_no_suffix_text word syllables x :
  In x ((if Re.search_vcc (Py.lower word) then [vcc_rule] else [])
        ++ (if Re.search_cvc (Py.lower word) then [cvc_rule] else [])
        ++ (if 3 <=? length syllables then [multi_rule] else [])) ->
  x = vcc_rule \/ x = cvc_rule \/ x = multi_rule.
Proof.
  destruct (Re.search_vcc _), (Re.search_cvc _), (3 <=? _); simpl;
    intuition auto.
Qed.

Lemma endswith_cons c s suf :
  Py.endswith (String c s) suf =
    if String.eqb (String c s) suf then true else Py.endswith s suf.
Proof. reflexivity. Qed.

(** No suffix of the table is the end of another one, so a word never
    ends with two of them: for this table the order decides nothing. *)
Lemma suffix_rules_exclusive base :
  length (List.filter (fun e => Py.endswith base e.1) suffix_rules) <= 1.
Proof.
  induction base as [|c r IH]; [vm_compute; lia|].
  destruct (existsb (fun e => String.eqb (String c r) e.1) suffix_rules) eqn:E.
  - apply existsb_exists in E as (e & Hin & He).
    apply String.eqb_eq in He. rewrite He.
    repeat (destruct Hin as [<- | Hin]; [vm_compute; lia|]). destruct Hin.
  - rewrite (filter_ext_in _ (fun e => Py.endswith r e.1)); [exact IH|].
    intros e Hin. rewrite endswith_cons.
    destruct (String.eqb (String c r) e.1) eqn:He; [|done].
    exfalso. assert (Ht : existsb (fun e => String.eqb (String c r) e.1)
                            suffix_rules = true)
      by (apply existsb_exists; eauto).
    congruence.
Qed.

End RuleExplainer.

(** C3. Suffix matching is first-match-wins in the fixed table order tion,
    sion, ing, er, or, ment, ness, able, ible: when the lowercase word ends
    with the suffix of a table entry and with no suffix of an earlier entry,
    the output starts with the explanation of that entry and holds no other
    suffix explanation, whichever later entries would match as well. *)
Theorem suffix_first_match_wins (word : string) (syllables : list string)
    (i : nat) (suf text : string) :
  suffix_rules !! i = Some (suf, text) ->
  Py.endswith (Py.lower word) suf = true ->
  (forall j suf' text', j < i -> suffix_rules !! j = Some (suf', text') ->
     Py.endswith (Py.lower word) suf' = false) ->
  map fst suffix_rules =
    ["tion"; "sion"; "ing"; "er"; "or"; "ment"; "ness"; "able"; "ible"]
  /\ exists rest,
       explain_syllable_rules word syllables = bullet text :: rest
       /\ forall x, In x rest -> is_suffix_text x = false.
Proof.
  intros Hi Hm Hfirst. split; [reflexivity|].
  rewrite explain_fired. unfold fired.
  rewrite (suffix_loop_first_match _ _ _ i suf text Hi Hm Hfirst). simpl.
  eexists. split; [reflexivity|].
  intros x Hx. apply fired_tail_no_suffix_text in Hx.
  destruct Hx as [-> | [-> | ->]]; reflexivity.
Qed.

Lemma suffix_first_match_wins_witness :
  exists rest,
    explain_syllable_rules "Teacher" ["teach"; "er"]
      = bullet "后缀 -er 常单独成音节（如 teacher, computer）" :: rest
    /\ forall x, In x rest -> is_suffix_text x = false.
Proof.
  refine (proj2 (suffix_first_match_wins "Teacher" ["teach"; "er"] 3 "er" _ _ _ _)).
  - reflexivity.
  - reflexivity.
  - intros j suf' text' Hj Hl.
    destruct j as [|[|[|j]]]; [| | | lia]; simpl in Hl;
      injection Hl as <- <-; reflexivity.
Defined.

(** C6. The rule explainer never returns an empty list: when no suffix
    rule, no spelling pattern and no multi-syllable rule fired, the output
    is the single fallback message, and otherwise the fallback message is
    not part of it. *)
Theorem explain_never_empty (word : string) (syllables : list string) :
  1 <= length (explain_syllable_rules word syllables)
  /\ match fired word syllables with
     | [] => explain_syllable_rules word syllables = [fallback_rule]
     | _ :: _ =>
         explain_syllable_rules word syllables = fired word syllables
         /\ count_occ string_dec (explain_syllable_rules word syllables)
              fallback_rule = 0
     end.
Proof.
  rewrite explain_fired.
  destruct (fired word syllables) as [|x l] eqn:Hf; [simpl; auto|].
  split; [simpl; lia|]. split; [done|].
  rewrite <- Hf. apply count_occ_not_In. intros Hin.
  unfold fired in Hin. apply in_app_or in Hin as [Hin | Hin].
  - destruct (suffix_loop_cases suffix_rules (Py.lower word))
      as [E | (suf & text & Hst & E)]; rewrite E in Hin; [done|].
    destruct Hin as [Hin | []].
    apply is_suffix_text_spec in Hst. rewrite Hin in Hst. discriminate Hst.
  - apply fired_tail_no_suffix_text in Hin.
    destruct Hin as [H | [H | H]]; discriminate H.
Qed.

(** ** Dictionary resolver *)

Section Resolver.

Implicit Types (env : World) (st : Session) (word key : string)
  (info : WordInfo) (js entry : json).

Lemma fetch_fails_base_result env calls key :
  fetch_fails env calls key = true ->
  fetch_word_info_from_api env calls key = Ok base_result.
Proof.
  unfold fetch_fails, fetch_word_info_from_api, try_block.
  destruct (urlopen env calls (api_url env key)) as [e | status body];
    [done|].
  destruct (Z.eqb status 200); simpl; [|done].
  destruct body as [data|]; [|done].
  destruct (json_loads env data) as [js|]; [|done].
  destruct js as [| | | | |[|x l]|]; simpl; done.
Qed.

(** Each kind of failure is one: an exception of [urlopen] (network
    error, timeout, HTTP error), a status other than 200, a body that
    cannot be read or decoded, a body that is not JSON, a document that
    is not a non-empty array. *)
Lemma fetch_fails_kinds env calls key :
  (forall e, urlopen env calls (api_url env key) = HttpRaise e ->
     fetch_fails env calls key = true)
  /\ (forall status body,
        urlopen env calls (api_url env key) = HttpResp status body ->
        status <> 200%Z -> fetch_fails env calls key = true)
  /\ (forall status,
        urlopen env calls (api_url env key) = HttpResp status None ->
        fetch_fails env calls key = true)
  /\ (forall status data,
        urlopen env calls (api_url env key) = HttpResp status (Some data) ->
        json_loads env data = None -> fetch_fails env calls key = true)
  /\ (forall status data js,
        urlopen env calls (api_url env key) = HttpResp status (Some data) ->
        json_loads env data = Some js -> is_nonempty_array js = false ->
        fetch_fails env calls key = true).
Proof.
  unfold fetch_fails. repeat split.
  - by intros e ->.
  - intros status body -> Hs. by apply Z.eqb_neq in Hs as ->.
  - intros status ->. apply orb_true_r.
  - intros status data -> ->. apply orb_true_r.
  - intros status data js -> -> ->. apply orb_true_r.
Qed.

(** A cache hit answers from the cache and leaves the session, and so
    the list of requests, as it was. *)
Lemma get_word_info_hit env st word info :
  dict_cache st !! Py.lower word = Some info ->
  get_word_info env st word = (st, Ok info).
Proof. intros H. unfold get_word_info. by rewrite H. Qed.

End Resolver.

(** C1. When the fetch fails (the request raises, the status is not 200,
    the body is not JSON, or the document is not a non-empty array), a call
    of [get_word_info] that misses the cache returns the all-empty record
    without raising, has made exactly one request, and has stored that
    record under the lowercase word; any later call for a word with the
    same lowercase form, whatever the network would answer then, returns
    the same record and leaves the session, and so the list of requests,
    unchanged. *)
Theorem failed_fetch_is_cached (env : World) (st : Session) (word : string) :
  dict_cache st !! Py.lower word = None ->
  fetch_fails env (length (requests st)) (Py.lower word) = true ->
  let st1 := fst (get_word_info env st word) in
  snd (get_word_info env st word) = Ok base_result
  /\ base_result = mkWordInfo None None None None []
  /\ dict_cache st1 !! Py.lower word = Some base_result
  /\ requests st1 = requests st ++ [api_url env (Py.lower word)]
  /\ forall env' word', Py.lower word' = Py.lower word ->
       get_word_info env' st1 word' = (st1, Ok base_result).
Proof.
  intros Hmiss Hfail.
  assert (E : get_word_info env st word =
              ({| dict_cache := <[Py.lower word := base_result]> (dict_cache st);
                  history := history st;
                  requests := requests st ++ [api_url env (Py.lower word)];
                  ticks := ticks st |}, Ok base_result)).
  { unfold get_word_info. rewrite Hmiss.
    by rewrite (fetch_fails_base_result _ _ _ Hfail). }
  rewrite E. simpl. repeat split.
  - apply lookup_insert_eq.
  - intros env' word' Heq. apply get_word_info_hit. rewrite Heq. simpl.
    apply lookup_insert_eq.
Qed.

Lemma failed_fetch_is_cached_witness :
  let st1 := fst (get_word_info offline_world empty_session "Computer") in
  snd (get_word_info offline_world empty_session "Computer") = Ok base_result
  /\ base_result = mkWordInfo None None None None []
  /\ dict_cache st1 !! "computer" = Some base_result
  /\ requests st1
     = ["https://api.dictionaryapi.dev/api/v2/entries/en/computer"]
  /\ forall env' word', Py.lower word' = "computer" ->
       get_word_info env' st1 word' = (st1, Ok base_result).
Proof.
  apply (failed_fetch_is_cached offline_world empty_session "Computer").
  - reflexivity.
  - reflexivity.
Defined.

(** *** Synonyms *)

Section Synonyms.

Implicit Types (l acc : list string) (syns : list json) (x y : string).

Lemma mem_In x l : Py.mem x l = true <-> In x l.
Proof.
  induction l as [|y r IH]; simpl; [split; [discriminate | tauto]|].
  destruct (String.eqb_spec y x) as [-> | Hne].
  - split; auto.
  - rewrite IH. split; [auto | intros [? | ?]; [done | auto]].
Qed.

Lemma mem_app x l1 l2 : Py.mem x (l1 ++ l2) = Py.mem x l1 || Py.mem x l2.
Proof.
  induction l1 as [|y r IH]; simpl; [done|].
  destruct (String.eqb y x); [done | apply IH].
Qed.

Lemma filter_filter_mem acc x l :
  List.filter (fun y => negb (Py.mem y (acc ++ [x]))) l =
  List.filter (fun y => negb (Py.mem y acc))
    (List.filter (fun y => negb (String.eqb y x)) l).
Proof.
  induction l as [|z r IH]; simpl; [done|].
  rewrite mem_app. simpl. rewrite (String.eqb_sym x z).
  destruct (String.eqb z x); simpl.
  - rewrite orb_true_r. simpl. apply IH.
  - rewrite orb_false_r. destruct (Py.mem z acc); simpl; by rewrite IH.
Qed.

Lemma filter_mem_absorb acc x l :
  Py.mem x acc = true ->
  List.filter (fun y => negb (Py.mem y acc))
    (List.filter (fun y => negb (String.eqb y x)) l) =
  List.filter (fun y => negb (Py.mem y acc)) l.
Proof.
  intros Hx. induction l as [|z r IH]; simpl; [done|].
  destruct (String.eqb_spec z x) as [-> | Hne]; simpl.
  - by rewrite Hx.
  - by rewrite IH.
Qed.

(** The loop with its [not in uniq] test computes the first-occurrence
    deduplication of the cleaned strings. *)
Lemma uniq_loop_dedup syns acc :
  uniq_loop syns acc =
  acc ++ List.filter (fun y => negb (Py.mem y acc))
           (dedup_first (clean_strings syns)).
Proof.
  revert acc. induction syns as [|s rest IH]; intros acc.
  - simpl. by rewrite app_nil_r.
  - unfold clean_strings in *. simpl.
    destruct s as [| | | |t| |]; simpl; try apply IH.
    destruct (Py.nonempty (Py.strip t)) eqn:Hne; simpl; [|apply IH].
    destruct (Py.mem (Py.strip t) acc) eqn:Hmem; simpl.
    + rewrite IH. by rewrite filter_mem_absorb.
    + rewrite IH, <- app_assoc. simpl. by rewrite filter_filter_mem.
Qed.

Lemma uniq_loop_is_dedup syns :
  uniq_loop syns [] = dedup_first (clean_strings syns).
Proof.
  rewrite uniq_loop_dedup. simpl.
  induction (dedup_first (clean_strings syns)) as [|z r IH]; simpl;
    [done | by rewrite IH].
Qed.

Lemma In_dedup_first x l : In x (dedup_first l) <-> In x l.
Proof.
  induction l as [|y r IH]; simpl; [tauto|].
  rewrite filter_In, IH.
  destruct (String.eqb_spec x y) as [-> | Hne]; simpl; intuition auto.
Qed.

Lemma filter_sublist (f : string -> bool) l : sublist (List.filter f l) l.
Proof.
  induction l as [|y r IH]; simpl; [constructor|].
  destruct (f y); by constructor.
Qed.

Lemma NoDup_dedup_first l : NoDup (dedup_first l).
Proof.
  induction l as [|y r IH]; simpl; constructor.
  - rewrite list_elem_of_In, filter_In, String.eqb_refl. simpl.
    intros [_ ?]. discriminate.
  - eapply sublist_NoDup; [exact IH | apply filter_sublist].
Qed.

(** The order of the source is kept. *)
Lemma dedup_first_sublist l : sublist (dedup_first l) l.
Proof.
  induction l as [|y r IH]; simpl; [constructor|].
  constructor. etrans; [apply filter_sublist | apply IH].
Qed.

(** The head of the source stays the head: it is the first occurrence
    that is kept. *)
Lemma dedup_first_head x l : exists r, dedup_first (x :: l) = x :: r /\ ~ In x r.
Proof.
  simpl. eexists. split; [reflexivity|].
  rewrite filter_In, String.eqb_refl. simpl. intros [_ ?]. discriminate.
Qed.

End Synonyms.

(** *** What [fetch_word_info_from_api] extracts *)

Section Extraction.

Implicit Types (env : World) (info r : WordInfo) (js entry m v : json).

Lemma py_get_Ok v k x :
  py_get v k = Ok x -> is_object v = true /\ x = field k v.
Proof. destruct v; simpl; intros H; try discriminate H. by injection H as <-. Qed.

Lemma py_get_object v k :
  is_object v = true -> py_get v k = Ok (field k v).
Proof. by destruct v. Qed.

Lemma first_item_or_empty v (A : Type) (f : json -> A) (d : A) :
  match or_empty_list v with JArr (x :: _) => f x | _ => d end =
  match first_item v with Some x => f x | None => d end.
Proof.
  unfold or_empty_list.
  destruct v as [|b|z|nz|s|[|x l]|[|p l]]; simpl; try done.
  - by destruct b.
  - by destruct (Z.eqb z 0).
  - by destruct nz.
  - by destruct (Py.nonempty s).
Qed.

Lemma extract_definitions_spec m r info :
  extract_definitions m r = Ok info ->
  synonyms r = [] ->
  ipa info = ipa r /\ pos info = pos r
  /\ synonyms info = take 5 (uniq_loop (synonyms_of_meaning m) []).
Proof.
  unfold extract_definitions, synonyms_of_meaning. intros H Hr.
  destruct (py_get m "definitions") as [defs0|] eqn:E0; [|done].
  apply py_get_Ok in E0 as [_ ->]. simpl in H.
  rewrite first_item_or_empty in H.
  destruct (first_item (field "definitions" m)) as [d0|];
    [|injection H as <-; by rewrite Hr].
  destruct (py_get d0 "definition") as [x|] eqn:E1; [|done].
  destruct (py_get d0 "example") as [y|] eqn:E2; [|done].
  destruct (py_get d0 "synonyms") as [z|] eqn:E3; [|done].
  apply py_get_Ok in E3 as [_ ->]. simpl in H.
  unfold or_empty_list in H.
  destruct (field "synonyms" d0) as [|b|n|nz|s|syns|fs]; simpl in H.
  all: try (destruct (stripped_text x), (stripped_text y);
            injection H as <-; simpl; by rewrite ?Hr).
  - destruct b; destruct (stripped_text x), (stripped_text y);
      injection H as <-; simpl; by rewrite ?Hr.
  - destruct (Z.eqb n 0); destruct (stripped_text x), (stripped_text y);
      injection H as <-; simpl; by rewrite ?Hr.
  - destruct nz; destruct (stripped_text x), (stripped_text y);
      injection H as <-; simpl; by rewrite ?Hr.
  - destruct (Py.nonempty s); destruct (stripped_text x), (stripped_text y);
      injection H as <-; simpl; by rewrite ?Hr.
  - destruct syns; destruct (stripped_text x), (stripped_text y);
      injection H as <-; simpl; by rewrite ?Hr.
  - destruct fs; destruct (stripped_text x), (stripped_text y);
      injection H as <-; simpl; by rewrite ?Hr.
Qed.

Lemma extract_meanings_spec entry r info :
  extract_meanings entry r = Ok info ->
  synonyms r = [] ->
  ipa info = ipa r
  /\ synonyms info =
       take 5 (uniq_loop
                 (match first_item (field "meanings" entry) with
                  | Some m => synonyms_of_meaning m
                  | None => []
                  end) []).
Proof.
  unfold extract_meanings. intros H Hr.
  destruct (py_get entry "meanings") as [ms|] eqn:E0; [|done].
  apply py_get_Ok in E0 as [_ ->]. simpl in H.
  rewrite first_item_or_empty in H.
  destruct (first_item (field "meanings" entry)) as [m|];
    [|injection H as <-; by rewrite Hr].
  destruct (py_get m "partOfSpeech") as [p|] eqn:E1; [|done].
  simpl in H. apply extract_definitions_spec in H as (Hi & _ & Hs).
  - split; [|done]. rewrite Hi. by destruct (stripped_text p).
  - by destruct (stripped_text p).
Qed.

Lemma extract_entry_spec entry info :
  extract_entry entry = Ok info ->
  exists cand,
    ipa_candidate entry = Ok cand
    /\ ipa info = ipa_of_candidate cand
    /\ synonyms info = take 5 (uniq_loop (source_synonyms (JArr [entry])) []).
Proof.
  unfold extract_entry. intros H.
  destruct (ipa_candidate entry) as [cand|] eqn:Ec; [|done].
  simpl in H. exists cand. split; [done|].
  apply extract_meanings_spec in H as [Hi Hs].
  - split; [|exact Hs]. rewrite Hi. by destruct (ipa_of_candidate cand).
  - by destruct (ipa_of_candidate cand).
Qed.

Lemma scan_phonetics_returns ps cand :
  forallb is_object ps = true -> exists c, scan_phonetics ps cand = Ok c.
Proof.
  induction ps as [|p rest IH]; simpl; [eauto|].
  intros [Hp Hrest]%andb_prop. rewrite (py_get_object _ _ Hp). simpl.
  destruct (field "text" p) as [| | | |t| |]; auto.
  destruct (Py.nonempty (Py.strip t)); eauto.
Qed.

Lemma ipa_candidate_returns entry :
  is_object entry = true ->
  all_objects (field "phonetics" entry) = true ->
  exists c, ipa_candidate entry = Ok c.
Proof.
  intros Hobj Hall. unfold ipa_candidate.
  rewrite (py_get_object _ _ Hobj). simpl.
  destruct (negb (truthy (field "phonetic" entry))); [|eauto].
  rewrite (py_get_object _ _ Hobj). simpl. unfold or_empty_list.
  destruct (field "phonetics" entry) as [|b|z|nz|s|ps|fs]; simpl; eauto.
  - destruct b; simpl; eauto.
  - destruct (Z.eqb z 0); simpl; eauto.
  - destruct nz; simpl; eauto.
  - destruct (Py.nonempty s); simpl; eauto.
  - destruct ps as [|p rest]; [simpl; eauto|].
    by apply scan_phonetics_returns.
  - destruct fs; simpl; eauto.
Qed.

Lemma extract_definitions_returns m r :
  is_object m = true ->
  match first_item (field "definitions" m) with
  | Some x => is_object x
  | None => true
  end = true ->
  exists info, extract_definitions m r = Ok info.
Proof.
  intros Hm Hd. unfold extract_definitions.
  rewrite (py_get_object _ _ Hm). simpl. rewrite first_item_or_empty.
  destruct (first_item (field "definitions" m)) as [x|]; [|eauto].
  rewrite !(py_get_object _ _ Hd). simpl.
  destruct (or_empty_list (field "synonyms" x)); eauto.
Qed.

Lemma extract_entry_returns entry :
  well_shaped entry = true -> exists info, extract_entry entry = Ok info.
Proof.
  unfold well_shaped. intros [[Hobj Hph]%andb_prop Hm]%andb_prop.
  unfold extract_entry.
  destruct (ipa_candidate_returns entry Hobj Hph) as [c ->]. simpl.
  unfold extract_meanings. rewrite (py_get_object _ _ Hobj). simpl.
  rewrite first_item_or_empty.
  destruct (first_item (field "meanings" entry)) as [m|]; [|eauto].
  apply andb_prop in Hm as [Hm Hd].
  rewrite (py_get_object _ _ Hm). simpl.
  by apply extract_definitions_returns.
Qed.

Lemma fetch_synonyms env calls word info :
  fetch_word_info_from_api env calls word = Ok info ->
  synonyms info =
    take 5 (dedup_first (clean_strings
      (match try_block env calls word with
       | Some js => source_synonyms js
       | None => []
       end))).
Proof.
  unfold fetch_word_info_from_api. intros H.
  destruct (try_block env calls word) as [js|]; [|by injection H as <-].
  destruct js as [| | | | |[|entry rest]|]; try by injection H as <-.
  apply extract_entry_spec in H as (cand & _ & _ & Hs).
  by rewrite Hs, uniq_loop_is_dedup.
Qed.

End Extraction.

(** C4. The synonym list of a returned record is the first-occurrence
    deduplication of the cleaned strings (stripped, blank ones and other
    values left out) of the [synonyms] array of the first definition of the
    first meaning, cut after five entries: it has no duplicates, at most
    five entries, and keeps the order of the source.  A record is returned
    whenever the first entry of the document is well shaped. *)
Theorem synonyms_deduplicated_truncated (env : World) (calls : nat)
    (word : string) :
  let source :=
    clean_strings (match try_block env calls word with
                   | Some js => source_synonyms js
                   | None => []
                   end) in
  (forall info,
     fetch_word_info_from_api env calls word = Ok info ->
     synonyms info = take 5 (dedup_first source)
     /\ NoDup (synonyms info)
     /\ length (synonyms info) <= 5
     /\ sublist (synonyms info) source)
  /\ (forall entry rest,
        try_block env calls word = Some (JArr (entry :: rest)) ->
        well_shaped entry = true ->
        exists info, fetch_word_info_from_api env calls word = Ok info).
Proof.
  intros source. split.
  - intros info H. pose proof (fetch_synonyms _ _ _ _ H) as Hs.
    fold source in Hs. rewrite Hs. split; [done|].
    assert (Hsub : sublist (take 5 (dedup_first source)) (dedup_first source))
      by apply sublist_take.
    split; [|split].
    + eapply sublist_NoDup; [apply NoDup_dedup_first | exact Hsub].
    + rewrite length_take. lia.
    + etrans; [exact Hsub | apply dedup_first_sublist].
  - intros entry rest Ht Hw. unfold fetch_word_info_from_api. rewrite Ht.
    by apply extract_entry_returns.
Qed.

Lemma synonyms_deduplicated_truncated_witness :
  (exists info,
    fetch_word_info_from_api (canned_world synonyms_document) 0 "happy" = Ok info
    /\ synonyms info = ["glad"; "merry"; "joyful"; "cheerful"; "content"]
    /\ NoDup (synonyms info)
    /\ length (synonyms info) <= 5)
  /\ (exists info,
    fetch_word_info_from_api (canned_world nbsp_document) 0 "x" = Ok info
    /\ synonyms info = ["a"; "b"; "c"; "d"; "e"]).
Proof.
  split.
  - destruct (synonyms_deduplicated_truncated
              (canned_world synonyms_document) 0 "happy") as [Hprops Hret].
    eexists. split; [reflexivity|].
    destruct (Hprops _ eq_refl) as (Heq & Hnd & Hlen & _).
    split; [exact Heq | split; [exact Hnd | exact Hlen]].
  - destruct (synonyms_deduplicated_truncated
              (canned_world nbsp_document) 0 "x") as [Hprops _].
    eexists. split; [reflexivity|].
    exact (proj1 (Hprops _ eq_refl)).
Defined.

(** The whitespace of the API strings and of the text is that of Python:
    a no-break space and an ideographic space are stripped and separate
    tokens. *)
Example unicode_whitespace :
  Py.strip (ideographic_space +:+ " a b" +:+ nbsp +:+ " ") = "a b"
  /\ Py.split_ws ("cat" +:+ nbsp +:+ "dog") = ["cat"; "dog"]
  /\ fetch_word_info_from_api (canned_world nbsp_document) 0 "x"
     = Ok {| ipa := Some "/abc/"; pos := Some "noun"; definition := None;
             example := None; synonyms := ["a"; "b"; "c"; "d"; "e"] |}.
Proof. repeat split. Qed.

(** *** Whitespace *)

Section Whitespace.

Implicit Types (s t r q : string) (a b c : ascii) (f : ascii -> bool).

Lemma string_app_cons c s t : String c s +:+ t = String c (s +:+ t).
Proof. reflexivity. Qed.

Lemma lstrip_unfold s :
  Py.lstrip s = match Py.leading_space s with Some r => Py.lstrip r | None => s end.
Proof.
  destruct s as [|a [|b [|c r]]]; simpl; try done.
  - by destruct (Py.is_space1 a).
  - destruct (Py.is_space1 a); [done|]. by destruct (Py.is_space2 a b).
  - destruct (Py.is_space1 a); [done|]. destruct (Py.is_space2 a b); [done|].
    by destruct (Py.is_space3 a b c).
Qed.

(** What follows a leading whitespace character is a proper suffix. *)
Lemma leading_space_suffix s r :
  Py.leading_space s = Some r ->
  exists p, s = p +:+ r /\ String.length r < String.length s.
Proof.
  destruct s as [|a [|b [|c t]]]; simpl; try done.
  - destruct (Py.is_space1 a); [|done]. intros [= <-].
    exists (String a EmptyString). simpl. split; [done | lia].
  - destruct (Py.is_space1 a).
    + intros [= <-]. exists (String a EmptyString). simpl. split; [done | lia].
    + destruct (Py.is_space2 a b); [|done]. intros [= <-].
      exists (String a (String b EmptyString)). simpl. split; [done | lia].
  - destruct (Py.is_space1 a).
    + intros [= <-]. exists (String a EmptyString). simpl. split; [done | lia].
    + destruct (Py.is_space2 a b).
      * intros [= <-]. exists (String a (String b EmptyString)). simpl.
        split; [done | lia].
      * destruct (Py.is_space3 a b c); [|done]. intros [= <-].
        exists (String a (String b (String c EmptyString))). simpl.
        split; [done | lia].
Qed.

(** A leading whitespace character stays one when the string goes on. *)
Lemma leading_space_app s r q :
  Py.leading_space s = Some r -> Py.leading_space (s +:+ q) = Some (r +:+ q).
Proof.
  destruct s as [|a [|b [|c t]]]; [done|..];
    rewrite ?string_app_cons; cbn [Py.leading_space].
  - destruct (Py.is_space1 a); [|done]. intros [= <-].
    by destruct q as [|b [|c t]].
  - destruct (Py.is_space1 a); [by intros [= <-]|].
    destruct (Py.is_space2 a b); [|done]. intros [= <-].
    by destruct q.
  - destruct (Py.is_space1 a); [by intros [= <-]|].
    destruct (Py.is_space2 a b); [by intros [= <-]|].
    destruct (Py.is_space3 a b c); [|done]. by intros [= <-].
Qed.

Lemma lstrip_left_clean s : left_clean (Py.lstrip s) = true.
Proof.
  remember (String.length s) as n eqn:Hn. revert s Hn.
  induction n as [n IH] using lt_wf_ind. intros s ->.
  rewrite lstrip_unfold. destruct (Py.leading_space s) as [r|] eqn:E.
  - destruct (leading_space_suffix _ _ E) as (_ & _ & Hl). by eapply IH.
  - unfold left_clean. by rewrite E.
Qed.

Lemma lstrip_id s : left_clean s = true -> Py.lstrip s = s.
Proof.
  unfold left_clean. rewrite lstrip_unfold.
  by destruct (Py.leading_space s).
Qed.

Lemma rstrip_cons a r :
  Py.rstrip (String a r) =
    match Py.leading_space (String a (Py.rstrip r)) with
    | Some EmptyString => EmptyString
    | _ => String a (Py.rstrip r)
    end.
Proof. reflexivity. Qed.

Lemma rstrip_idem s : Py.rstrip (Py.rstrip s) = Py.rstrip s.
Proof.
  induction s as [|a r IH]; [done|]. rewrite rstrip_cons.
  destruct (Py.leading_space (String a (Py.rstrip r))) as [[|x y]|] eqn:E;
    [done| |]; by rewrite rstrip_cons, IH, E.
Qed.

(** [rstrip] cuts the string at its end. *)
Lemma rstrip_prefix s : exists q, s = Py.rstrip s +:+ q.
Proof.
  induction s as [|a r [q IH]]; [by exists EmptyString|].
  rewrite rstrip_cons.
  destruct (Py.leading_space (String a (Py.rstrip r))) as [[|x y]|].
  - by exists (String a r).
  - exists q. by rewrite string_app_cons, <- IH.
  - exists q. by rewrite string_app_cons, <- IH.
Qed.

Lemma rstrip_left_clean s : left_clean s = true -> left_clean (Py.rstrip s) = true.
Proof.
  unfold left_clean. destruct (rstrip_prefix s) as [q Hq].
  destruct (Py.leading_space (Py.rstrip s)) as [r|] eqn:E; [|done].
  apply (leading_space_app _ _ q) in E. rewrite <- Hq in E. by rewrite E.
Qed.

Lemma strip_idem s : Py.strip (Py.strip s) = Py.strip s.
Proof.
  unfold Py.strip.
  rewrite (lstrip_id (Py.rstrip (Py.lstrip s))).
  - apply rstrip_idem.
  - apply rstrip_left_clean, lstrip_left_clean.
Qed.

Lemma string_forall_app f s t :
  string_forall f (s +:+ t) = string_forall f s && string_forall f t.
Proof.
  induction s as [|c r IH]; [done|].
  rewrite string_app_cons. simpl. by rewrite IH, andb_assoc.
Qed.

Lemma string_forall_lstrip f s :
  string_forall f s = true -> string_forall f (Py.lstrip s) = true.
Proof.
  remember (String.length s) as n eqn:Hn. revert s Hn.
  induction n as [n IH] using lt_wf_ind. intros s -> Hs.
  rewrite lstrip_unfold. destruct (Py.leading_space s) as [r|] eqn:E; [|done].
  destruct (leading_space_suffix _ _ E) as (p & Hp & Hl).
  eapply IH; [exact Hl | done |].
  rewrite Hp, string_forall_app in Hs. by apply andb_prop in Hs as [_ ?].
Qed.

Lemma string_forall_rstrip f s :
  string_forall f s = true -> string_forall f (Py.rstrip s) = true.
Proof.
  intros Hs. destruct (rstrip_prefix s) as [q Hq].
  rewrite Hq, string_forall_app in Hs. by apply andb_prop in Hs as [? _].
Qed.

Lemma words_go_unfold (oc : option string) s :
  Py.words_go oc s =
    match s with
    | EmptyString => Py.flush oc
    | String a r =>
        match Py.leading_space s with
        | Some rest => Py.flush oc ++ Py.words_go None rest
        | None => Py.words_go (Py.push a oc) r
        end
    end.
Proof.
  destruct s as [|a [|b [|c r]]]; simpl; try done.
  - by destruct (Py.is_space1 a).
  - destruct (Py.is_space1 a); [done|]. by destruct (Py.is_space2 a b).
  - destruct (Py.is_space1 a); [done|]. destruct (Py.is_space2 a b); [done|].
    by destruct (Py.is_space3 a b c).
Qed.

Lemma string_forall_rev_app f s t :
  string_forall f (String.rev_app s t) = string_forall f s && string_forall f t.
Proof.
  revert t. induction s as [|c r IH]; intros t; simpl; [done|].
  rewrite IH. simpl. destruct (f c), (string_forall f r); done.
Qed.

Lemma string_forall_rev f s :
  string_forall f (String.rev s) = string_forall f s.
Proof. unfold String.rev. rewrite string_forall_rev_app. simpl. apply andb_true_r. Qed.

(** The tokens of a text are made of characters of the text. *)
Lemma words_go_forall f (oc : option string) s :
  string_forall f s = true ->
  string_forall f (match oc with Some w => w | None => EmptyString end) = true ->
  Forall (fun t => string_forall f t = true) (Py.words_go oc s).
Proof.
  remember (String.length s) as n eqn:Hn. revert s oc Hn.
  induction n as [n IH] using lt_wf_ind. intros s oc -> Hs Hoc.
  assert (Hflush : Forall (fun t => string_forall f t = true) (Py.flush oc)).
  { destruct oc as [w|]; simpl; [|constructor].
    constructor; [|constructor]. by rewrite string_forall_rev. }
  rewrite words_go_unfold. destruct s as [|a r]; [done|].
  destruct (Py.leading_space (String a r)) as [rest|] eqn:E.
  - destruct (leading_space_suffix _ _ E) as (p & Hp & Hl).
    apply Forall_app. split; [done|].
    eapply IH; [exact Hl | done | | done].
    rewrite Hp, string_forall_app in Hs. by apply andb_prop in Hs as [_ ?].
  - simpl in Hs. apply andb_prop in Hs as [Ha Hr].
    eapply IH; [| done | done |]; [simpl; lia|]. simpl. by rewrite Ha.
Qed.

Lemma string_app_assoc (s t u : string) : (s +:+ t) +:+ u = s +:+ (t +:+ u).
Proof.
  induction s as [|c r IH]; [done|]. by rewrite !string_app_cons, IH.
Qed.

Lemma string_app_empty_r (s : string) : s +:+ EmptyString = s.
Proof.
  induction s as [|c r IH]; [done|]. by rewrite string_app_cons, IH.
Qed.

Lemma rev_app_app (cur acc : string) :
  String.rev_app cur acc = String.rev cur +:+ acc.
Proof.
  unfold String.rev. revert acc.
  induction cur as [|c r IH]; intros acc; simpl; [done|].
  rewrite (IH (String c acc)), (IH (String c EmptyString)).
  by rewrite string_app_assoc.
Qed.

Lemma rev_cons (c : ascii) (cur : string) :
  String.rev (String c cur) = String.rev cur +:+ String c EmptyString.
Proof. unfold String.rev at 1. simpl. apply rev_app_app. Qed.

End Whitespace.

(** *** IPA *)

Section Ipa.

Implicit Types (s t : string) (entry p cand : json) (ps pre post : list json).

Lemma not_blank_nonempty s : blank s = false -> Py.nonempty s = true.
Proof. by destruct s. Qed.

Lemma ipa_of_stripped t :
  blank t = false ->
  ipa_of_candidate (JStr (Py.strip t)) = Some (wrap_ipa (Py.strip t)).
Proof.
  unfold blank, ipa_of_candidate, Py.nonempty. intros H.
  by rewrite strip_idem, H.
Qed.

Lemma scan_phonetics_first pre p post t cand :
  forallb (fun q => is_object q && unusable_text q) pre = true ->
  is_object p = true ->
  field "text" p = JStr t ->
  blank t = false ->
  scan_phonetics (pre ++ p :: post) cand = Ok (JStr (Py.strip t)).
Proof.
  intros Hpre Hp Ht Hb. induction pre as [|q pre IH]; simpl.
  - rewrite (py_get_object _ _ Hp), Ht. simpl.
    unfold blank in Hb. unfold Py.nonempty. by rewrite Hb.
  - simpl in Hpre. apply andb_prop in Hpre as [Hq Hrest].
    apply andb_prop in Hq as [Hobj Hun].
    rewrite (py_get_object _ _ Hobj). simpl.
    unfold unusable_text, blank in Hun.
    destruct (field "text" q) as [| | | |u| |]; try by apply IH.
    unfold Py.nonempty. rewrite Hun. simpl. by apply IH.
Qed.

End Ipa.

(** C5, as amended.  On an entry that is an object: a direct [phonetic]
    string with content other than whitespace is used; when [phonetic] is
    absent or has a false truth value (empty), the [text] of the first
    element of [phonetics] that is a string with such content is used,
    every element before it being an object; the chosen string is stripped
    of surrounding whitespace and then, unless it starts with a slash or a
    bracket, put between slashes.  The IPA of a returned record is the one
    extracted this way. *)
Theorem ipa_extraction_cases (entry : json) :
  is_object entry = true ->
  (forall s, field "phonetic" entry = JStr s -> blank s = false ->
     ipa_extraction entry = Ok (Some (wrap_ipa (Py.strip s))))
  /\ (forall pre p post t,
        truthy (field "phonetic" entry) = false ->
        field "phonetics" entry = JArr (pre ++ p :: post) ->
        forallb (fun q => is_object q && unusable_text q) pre = true ->
        is_object p = true ->
        field "text" p = JStr t ->
        blank t = false ->
        ipa_extraction entry = Ok (Some (wrap_ipa (Py.strip t))))
  /\ (forall s, wrap_ipa s =
        if Py.startswith "/" s || Py.startswith "[" s then s
        else "/" +:+ s +:+ "/")
  /\ (forall info, extract_entry entry = Ok info ->
        ipa_extraction entry = Ok (ipa info)).
Proof.
  intros Hobj. unfold ipa_extraction, ipa_candidate.
  rewrite (py_get_object _ _ Hobj). simpl. repeat split.
  - intros s Hs Hb. rewrite Hs. simpl.
    rewrite (not_blank_nonempty _ Hb). simpl.
    unfold blank in Hb. unfold Py.nonempty. by rewrite Hb.
  - intros pre p post t Hfalsy Hps Hpre Hp Ht Hb.
    rewrite Hfalsy. simpl. rewrite (py_get_object _ _ Hobj), Hps. simpl.
    replace (or_empty_list (JArr (pre ++ p :: post)))
      with (JArr (pre ++ p :: post)) by (by destruct pre).
    rewrite (scan_phonetics_first pre p post t _ Hpre Hp Ht Hb).
    unfold rbind. by rewrite (ipa_of_stripped _ Hb).
  - intros info H. apply extract_entry_spec in H as (cand & Hc & Hi & _).
    unfold ipa_candidate in Hc. rewrite (py_get_object _ _ Hobj) in Hc.
    simpl in Hc. rewrite Hc. simpl. by rewrite Hi.
Qed.

Lemma ipa_extraction_cases_witness :
  ipa_extraction padded_phonetic_entry = Ok (Some "/abc/")
  /\ ipa_extraction phonetics_entry = Ok (Some "[helo]")
  /\ ipa_extraction (JObj [("phonetic", JStr (nbsp +:+ "abc" +:+ nbsp))])
     = Ok (Some "/abc/").
Proof.
  split; [|split].
  - exact (proj1 (ipa_extraction_cases padded_phonetic_entry eq_refl)
             " abc " eq_refl eq_refl).
  - exact (proj1 (proj2 (ipa_extraction_cases phonetics_entry eq_refl))
             [JObj [("audio", JStr "a.mp3")]; JObj [("text", JStr "  ")]]
             (JObj [("text", JStr "[helo] ")])
             [JObj [("text", JStr "/late/")]]
             "[helo] " eq_refl eq_refl eq_refl eq_refl eq_refl eq_refl).
  - exact (proj1 (ipa_extraction_cases
                    (JObj [("phonetic", JStr (nbsp +:+ "abc" +:+ nbsp))])
                    eq_refl)
             (nbsp +:+ "abc" +:+ nbsp) eq_refl eq_refl).
Defined.

(** C5 as stated fails: with a direct [phonetic] field that holds a blank
    and a usable [text] in [phonetics], the literal reading stores the
    blank between slashes (and a reading that takes the blank for empty
    would store the text of [phonetics]), while the code stores no IPA. *)
Lemma ipa_blank_phonetic_counterexample :
  fetch_word_info_from_api (canned_world (JArr [blank_phonetic_entry])) 0 "a"
    = Ok base_result
  /\ ipa base_result = None
  /\ ipa_read_literally blank_phonetic_entry = Some "/ /"
  /\ first_nonempty_text [JObj [("text", JStr "/a/")]] = Some "/a/".
Proof. repeat split. Qed.

(** ** History ledger *)

Section Ledger.

Context {V : Type}.
Implicit Types (d : list (string * V)) (k : string) (f : V -> V).

Lemma assoc_get_alter f k k' d :
  assoc_get k' (dict_alter f k d) =
    if String.eqb k' k then f <$> assoc_get k d else assoc_get k' d.
Proof.
  induction d as [|[k0 v] rest IH]; simpl.
  - by destruct (String.eqb k' k).
  - destruct (String.eqb_spec k0 k) as [-> | Hne]; simpl.
    + destruct (String.eqb_spec k k') as [<- | Hne'].
      * by rewrite String.eqb_refl.
      * destruct (String.eqb_spec k' k) as [-> | _]; [done|].
        reflexivity.
    + destruct (String.eqb_spec k0 k') as [-> | Hne'].
      * destruct (String.eqb_spec k' k) as [-> | _]; done.
      * exact IH.
Qed.

Lemma assoc_get_app k d d' :
  assoc_get k (d ++ d') =
    match assoc_get k d with Some v => Some v | None => assoc_get k d' end.
Proof.
  induction d as [|[k0 v] rest IH]; simpl; [done|].
  by destruct (String.eqb k0 k).
Qed.

Lemma keys_alter f k d : map fst (dict_alter f k d) = map fst d.
Proof.
  induction d as [|[k0 v] rest IH]; simpl; [done|].
  destruct (String.eqb k0 k); simpl; by rewrite ?IH.
Qed.

Lemma length_alter f k d : length (dict_alter f k d) = length d.
Proof. by rewrite <- (length_map fst), keys_alter, length_map. Qed.


Lemma Forall_alter (P : string * V -> Prop) f k d :
  (forall v, P (k, v) -> P (k, f v)) ->
  Forall P d -> Forall P (dict_alter f k d).
Proof.
  intros Hf. induction d as [|[k0 v] rest IH]; simpl; [done|].
  intros [Hh Ht]%Forall_cons.
  destruct (String.eqb_spec k0 k) as [-> | Hne]; constructor; auto.
Qed.

End Ledger.

Section Canonical.

Implicit Types (c : ascii) (w s : string).

Lemma lower_char_canonical c :
  Py.is_letter c || Ascii.eqb c "'"%char = true ->
  Py.is_lower (Py.lower_char c) || Ascii.eqb (Py.lower_char c) "'"%char = true.
Proof. destruct c as [[] [] [] [] [] [] [] []]; vm_compute; done. Qed.

Lemma canonical_chars w :
  string_forall (fun c => Py.is_lower c || Ascii.eqb c "'"%char) (canonical w)
  = true.
Proof.
  unfold canonical. induction w as [|c r IH]; simpl; [done|].
  destruct (Py.is_letter c || Ascii.eqb c "'"%char) eqn:E; simpl; [|done].
  by rewrite (lower_char_canonical c E), IH.
Qed.

Lemma lower_is_empty s : Py.is_empty (Py.lower s) = Py.is_empty s.
Proof. by destruct s. Qed.

Lemma canonical_is_canonical w :
  Py.is_empty (Re.sub_non_letters w) = false ->
  is_canonical (canonical w) = true.
Proof.
  intros H. unfold is_canonical. rewrite canonical_chars, andb_true_r.
  unfold Py.nonempty, canonical. by rewrite lower_is_empty, H.
Qed.

(** A token is dropped by the cleaning exactly when it has no letter and
    no apostrophe. *)
Lemma cleaned_empty_iff w :
  Py.is_empty (Re.sub_non_letters w) = no_letter_no_apostrophe w.
Proof.
  unfold no_letter_no_apostrophe. induction w as [|c r IH]; simpl; [done|].
  destruct (Py.is_letter c), (Ascii.eqb c "'"%char); simpl; done.
Qed.

(** Lowering does not depend on the case of the input. *)
Lemma lower_idem s : Py.lower (Py.lower s) = Py.lower s.
Proof.
  induction s as [|c r IH]; simpl; [done|]. rewrite IH. f_equal.
  destruct c as [[] [] [] [] [] [] [] []]; reflexivity.
Qed.

End Canonical.

Section HistoryUpdate.

Implicit Types (h : list (string * HistoryRecord)) (e : HistoryRecord)
  (base now_str w pretty ipa_for_history k : string) (cnt : nat).

Lemma dict_mem_get {V : Type} k (d : list (string * V)) :
  dict_mem k d = match assoc_get k d with Some _ => true | None => false end.
Proof. reflexivity. Qed.

Lemma update_history_lookup h base now_str w pretty cnt ipa_for_history k :
  assoc_get k (update_history h base now_str w pretty cnt ipa_for_history) =
    if String.eqb k base then
      Some (match assoc_get base h with
            | None =>
                mkHistoryRecord now_str 1 w base pretty cnt ipa_for_history
            | Some e =>
                mkHistoryRecord now_str (h_count e + 1) w (h_base e) pretty
                  cnt ipa_for_history
            end)
    else assoc_get k h.
Proof.
  unfold update_history. rewrite dict_mem_get.
  destruct (assoc_get base h) as [e|] eqn:E.
  - rewrite assoc_get_alter, E. reflexivity.
  - rewrite assoc_get_app. simpl.
    destruct (String.eqb_spec k base) as [-> | Hne].
    + by rewrite E, String.eqb_refl.
    + destruct (assoc_get k h); [done|].
      destruct (String.eqb_spec base k) as [-> | _]; done.
Qed.

Lemma update_history_keys h base now_str w pretty cnt ipa_for_history :
  map fst (update_history h base now_str w pretty cnt ipa_for_history) =
    if dict_mem base h then map fst h else map fst h ++ [base].
Proof.
  unfold update_history. destruct (dict_mem base h).
  - apply keys_alter.
  - by rewrite map_app.
Qed.


Lemma update_history_key_matches h base now_str w pretty cnt ipa_for_history :
  is_canonical base = true ->
  key_matches h ->
  key_matches (update_history h base now_str w pretty cnt ipa_for_history).
Proof.
  unfold key_matches, update_history. intros Hc Hh.
  destruct (dict_mem base h).
  - apply Forall_alter; [|done]. simpl. tauto.
  - apply Forall_app. split; [done|]. constructor; [|constructor]. by simpl.
Qed.

Lemma update_history_syllables h base now_str w pretty cnt ipa_for_history :
  1 <= cnt ->
  syllables_positive h ->
  syllables_positive (update_history h base now_str w pretty cnt ipa_for_history).
Proof.
  unfold syllables_positive, update_history. intros Hc Hh.
  destruct (dict_mem base h).
  - apply Forall_alter; [|done]. by simpl.
  - apply Forall_app. split; [done|]. constructor; [|constructor]. by simpl.
Qed.

End HistoryUpdate.

(** ** The main loop *)

Section Loop.

Implicit Types (env : World) (st : Session) (pg : Page) (w text : string)
  (words texts : list string).

Lemma split_go_length sep cur s : 1 <= length (Py.split_go sep cur s).
Proof.
  revert cur. induction s as [|c r IH]; intros cur; simpl; [lia|].
  destruct (Ascii.eqb c sep); simpl; [lia | apply IH].
Qed.

(** [split] never returns an empty list. *)
Lemma split_length sep s : 1 <= length (Py.split sep s).
Proof. apply split_go_length. Qed.

Lemma get_word_info_history env st word :
  history (get_word_info env st word).1 = history st.
Proof.
  unfold get_word_info. destruct (dict_cache st !! Py.lower word); [done|].
  by destruct (fetch_word_info_from_api _ _ _).
Qed.

(** The three ways through the body of the loop: the token is skipped,
    the lookup raises, or the card is rendered and the ledger updated. *)
Lemma process_word_cases env pg w :
  let syllables := Py.split "-"%char (inserted env (canonical w)) in
  (Py.is_empty (Re.sub_non_letters w) = true
   /\ process_word env pg w = (pg, None))
  \/ (Py.is_empty (Re.sub_non_letters w) = false
      /\ exists st,
           history st = history (session pg)
           /\ ((exists e,
                  process_word env pg w =
                    ({| session := st;
                        total_words := total_words pg + 1;
                        total_syllables := total_syllables pg + length syllables;
                        cards := cards pg |}, Some e))
               \/ (exists card ipa_for_history,
                     process_word env pg w =
                       ({| session :=
                             {| dict_cache := dict_cache st;
                                history :=
                                  update_history (history st) (canonical w)
                                    (now env (ticks st)) w
                                    (Py.join "·" syllables) (length syllables)
                                    ipa_for_history;
                                requests := requests st;
                                ticks := ticks st + 1 |};
                           total_words := total_words pg + 1;
                           total_syllables :=
                             total_syllables pg + length syllables;
                           cards := cards pg ++ [card] |}, None)))).
Proof.
  intros syllables. unfold process_word. fold (canonical w). fold syllables.
  destruct (Py.is_empty (Re.sub_non_letters w)) eqn:E; [by left|]. right.
  split; [done|].
  pose proof (get_word_info_history env (session pg) (canonical w)) as Hh.
  destruct (get_word_info env (session pg) (canonical w)) as [st [info|e]];
    simpl in Hh; exists st; (split; [done|]).
  - right. eauto.
  - left. eauto.
Qed.

Section Invariant.

(** A property of the ledger that every update for a cleaned token
    with at least one syllable keeps. *)
Variable I : list (string * HistoryRecord) -> Prop.
Hypothesis I_update :
  forall h w now_str pretty cnt ipa_for_history,
    Py.is_empty (Re.sub_non_letters w) = false ->
    1 <= cnt ->
    I h ->
    I (update_history h (canonical w) now_str w pretty cnt ipa_for_history).

Lemma process_word_keeps env pg w :
  I (history (session pg)) -> I (history (session (process_word env pg w).1)).
Proof.
  intros H.
  destruct (process_word_cases env pg w)
    as [[_ ->] | (Hne & st & Hst & [[e ->] | (card & i & ->)])]; simpl.
  - done.
  - by rewrite Hst.
  - rewrite Hst. apply I_update; [done | apply split_length | done].
Qed.

Lemma process_words_keeps env pg words :
  I (history (session pg)) ->
  I (history (session (process_words env pg words).1)).
Proof.
  revert pg. induction words as [|w rest IH]; intros pg H; simpl; [done|].
  pose proof (process_word_keeps env pg w H) as Hw.
  destruct (process_word env pg w) as [pg' [e|]]; simpl in *; [done|].
  by apply IH.
Qed.

Lemma run_input_keeps env st text :
  I (history st) -> I (history (session (run_input env st text).1)).
Proof.
  intros H. unfold run_input.
  destruct (Py.nonempty (Py.strip text)); [|done].
  by apply process_words_keeps.
Qed.

Hypothesis I_empty : I [].

Lemma run_actions_keeps env st actions :
  I (history st) -> I (history (run_actions env st actions)).
Proof.
  revert st. induction actions as [|a rest IH]; intros st H; simpl; [done|].
  apply IH. destruct a as [text|]; simpl; [by apply run_input_keeps | done].
Qed.

End Invariant.

(** The counters of the loop. *)
Lemma process_word_totals env pg w :
  total_words pg <= total_syllables pg ->
  total_words (process_word env pg w).1
    <= total_syllables (process_word env pg w).1.
Proof.
  intros H.
  pose proof (split_length "-"%char (inserted env (canonical w))) as Hlen.
  destruct (process_word_cases env pg w)
    as [[_ ->] | (Hne & st & Hst & [[e ->] | (card & i & ->)])]; simpl; lia.
Qed.

Lemma process_words_totals env pg words :
  total_words pg <= total_syllables pg ->
  total_words (process_words env pg words).1
    <= total_syllables (process_words env pg words).1.
Proof.
  revert pg. induction words as [|w rest IH]; intros pg H; simpl; [done|].
  pose proof (process_word_totals env pg w H) as Hw.
  destruct (process_word env pg w) as [pg' [e|]]; simpl in *; [done|].
  by apply IH.
Qed.

End Loop.

(** C2. The ledger update is an upsert keyed by the canonical word: under
    the key of the lookup the ledger then holds a record with count 1 and
    the data of the lookup when the key was absent, and the old record with
    its count raised by one and its time, raw input, syllable split,
    syllable number and IPA replaced when it was present; every other key
    keeps its record, and the keys keep their places, a new one going to
    the end.  Hence the lookups of Computer and then COMPUTER, from an empty
    ledger, leave exactly one entry, under the key computer, with count 2:
    for the update itself with any data, and for the loop whenever the two
    lookups do not raise. *)
Theorem history_upsert (h : list (string * HistoryRecord))
    (base now_str w pretty : string) (cnt : nat) (ipa_for_history k : string) :
  let h' := update_history h base now_str w pretty cnt ipa_for_history in
  assoc_get k h' =
    (if String.eqb k base then
       Some (match assoc_get base h with
             | None => mkHistoryRecord now_str 1 w base pretty cnt ipa_for_history
             | Some e =>
                 mkHistoryRecord now_str (h_count e + 1) w (h_base e) pretty cnt
                   ipa_for_history
             end)
     else assoc_get k h)
  /\ map fst h' = (if dict_mem base h then map fst h else map fst h ++ [base])
  /\ (forall t1 p1 c1 i1 t2 p2 c2 i2,
        update_history
          (update_history [] (canonical "Computer") t1 "Computer" p1 c1 i1)
          (canonical "COMPUTER") t2 "COMPUTER" p2 c2 i2
        = [("computer", mkHistoryRecord t2 2 "COMPUTER" "computer" p2 c2 i2)])
  /\ (forall env st,
        history st = [] ->
        (process_words env (start_page st) ["Computer"; "COMPUTER"]).2 = None ->
        exists e,
          history (session (process_words env (start_page st)
                              ["Computer"; "COMPUTER"]).1) = [("computer", e)]
          /\ h_count e = 2 /\ h_base e = "computer" /\ h_raw e = "COMPUTER").
Proof.
  intros h'. split; [apply update_history_lookup|].
  split; [apply update_history_keys|]. split; [reflexivity|].
  intros env st Hempty. simpl.
  destruct (process_word_cases env (start_page st) "Computer")
    as [[Hc _] | (_ & st1 & Hst1 & [[e ->] | (card & i & ->)])];
    [discriminate Hc | discriminate |].
  match goal with
  | |- context [process_word env ?pg "COMPUTER"] =>
      destruct (process_word_cases env pg "COMPUTER")
        as [[Hc _] | (_ & st2 & Hst2 & [[e ->] | (card2 & i2 & ->)])]
  end; [discriminate Hc | discriminate |].
  intros _. simpl in *. rewrite Hst2, Hst1, Hempty. eexists.
  split; [reflexivity|]. done.
Qed.

Lemma history_upsert_witness :
  exists e,
    history (session (process_words offline_world (start_page empty_session)
                        ["Computer"; "COMPUTER"]).1) = [("computer", e)]
    /\ h_count e = 2 /\ h_base e = "computer" /\ h_raw e = "COMPUTER".
Proof.
  refine (proj2 (proj2 (proj2
            (history_upsert [] "computer" "t" "Computer" "com·put·er" 3
               EmptyString "computer")))
          offline_world empty_session _ _).
  - reflexivity.
  - reflexivity.
Defined.

(** C9. In the ledger every record names, in its canonical-word field, the
    key it is stored under, a non-empty word of lowercase letters and
    apostrophes: the loop keeps this from any ledger that has it, so it
    holds after any sequence of actions (texts entered, history cleared)
    from the empty session; the update branch leaves the field of the
    record as it was, and an update moves no key. *)
Theorem ledger_key_invariant (env : World) :
  (forall pg words,
     key_matches (history (session pg)) ->
     key_matches (history (session (process_words env pg words).1)))
  /\ (forall actions, key_matches (history (run_actions env empty_session actions)))
  /\ (forall h base now_str w pretty cnt ipa_for_history e,
        assoc_get base h = Some e ->
        exists e',
          assoc_get base
            (update_history h base now_str w pretty cnt ipa_for_history)
          = Some e'
          /\ h_base e' = h_base e)
  /\ (forall h base now_str w pretty cnt ipa_for_history,
        map fst h `prefix_of`
          map fst (update_history h base now_str w pretty cnt ipa_for_history)).
Proof.
  assert (Hupd : forall h w now_str pretty cnt ipa_for_history,
            Py.is_empty (Re.sub_non_letters w) = false ->
            1 <= cnt ->
            key_matches h ->
            key_matches
              (update_history h (canonical w) now_str w pretty cnt ipa_for_history)).
  { intros h w now_str pretty cnt i Hne _ Hh.
    apply update_history_key_matches; [by apply canonical_is_canonical | done]. }
  split; [|split; [|split]].
  - intros pg words. by apply process_words_keeps.
  - intros actions. apply run_actions_keeps; [done | constructor | constructor].
  - intros h base now_str w pretty cnt i e He. eexists. split.
    + rewrite update_history_lookup, String.eqb_refl, He. reflexivity.
    + reflexivity.
  - intros h base now_str w pretty cnt i. rewrite update_history_keys.
    destruct (dict_mem base h); [done|]. by eexists.
Qed.

Lemma ledger_key_invariant_witness :
  key_matches
    (history (session (process_words offline_world (start_page empty_session)
                         ["Computer"; "it's"; "COMPUTER"]).1)).
Proof.
  apply (proj1 (ledger_key_invariant offline_world)
           (start_page empty_session) ["Computer"; "it's"; "COMPUTER"]).
  simpl. constructor.
Defined.

(** C10. Splitting any string at the hyphens gives at least one piece, so
    the syllable number of every lookup is at least 1: every record of the
    ledger has a syllable number of at least 1 after any sequence of
    actions from the empty session, and when a run of the page ends,
    normally or by an exception, the total of syllables is at least the
    total of words. *)
Theorem syllable_count_positive (env : World) :
  (forall s, 1 <= length (Py.split "-"%char s))
  /\ (forall actions,
        syllables_positive (history (run_actions env empty_session actions)))
  /\ (forall st text,
        total_words (run_input env st text).1
          <= total_syllables (run_input env st text).1).
Proof.
  split; [|split].
  - intros s. apply split_length.
  - intros actions. apply run_actions_keeps; [|constructor|constructor].
    intros h w now_str pretty cnt i _ Hcnt Hh.
    by apply update_history_syllables.
  - intros st text. unfold run_input.
    destruct (Py.nonempty (Py.strip text)); [|done].
    by apply process_words_totals.
Qed.

(** C7, as amended.  A token without any letter and without any
    apostrophe is skipped: the page (the two totals, the cards, and the
    session with its ledger, cache and list of requests) is as before, and
    the loop goes on with the next token.  In general the total of words
    rises by one exactly for the tokens that have a letter or an
    apostrophe. *)
Theorem non_word_token_skipped (env : World) (pg : Page) (w : string)
    (words : list string) :
  no_letter_no_apostrophe w = true ->
  process_word env pg w = (pg, None)
  /\ process_words env pg (w :: words) = process_words env pg words
  /\ forall w',
       total_words (process_word env pg w').1 =
         total_words pg + (if no_letter_no_apostrophe w' then 0 else 1).
Proof.
  intros H.
  assert (Hskip : process_word env pg w = (pg, None)).
  { unfold process_word. by rewrite cleaned_empty_iff, H. }
  split; [done|]. split; [simpl; by rewrite Hskip|].
  intros w'. rewrite <- cleaned_empty_iff.
  destruct (process_word_cases env pg w')
    as [[Hc ->] | (Hc & st & _ & [[e ->] | (card & i & ->)])];
    rewrite Hc; simpl; lia.
Qed.

Lemma non_word_token_skipped_witness :
  process_word offline_world (start_page empty_session) "--!?"
    = (start_page empty_session, None)
  /\ process_words offline_world (start_page empty_session) ["--!?"; "cat"]
     = process_words offline_world (start_page empty_session) ["cat"].
Proof.
  pose proof (non_word_token_skipped offline_world (start_page empty_session)
                "--!?" ["cat"] eq_refl) as (H1 & H2 & _).
  split; [exact H1 | exact H2].
Defined.

(** C7 as stated fails: a token that is a lone apostrophe has no letter,
    yet it is counted as a word with one syllable, gets a card and an
    entry in the ledger. *)
Lemma apostrophe_token_counterexample :
  only_non_letters "'" = true
  /\ total_words (process_word offline_world (start_page empty_session) "'").1 = 1
  /\ total_syllables
       (process_word offline_world (start_page empty_session) "'").1 = 1
  /\ length (cards (process_word offline_world (start_page empty_session) "'").1)
     = 1
  /\ map fst (history (session
       (process_word offline_world (start_page empty_session) "'").1)) = ["'"].
Proof. repeat split. Qed.

(** ** Export *)

Section ExportRows.

Implicit Types (x y : HistoryRecord) (l : list HistoryRecord)
  (h : list (string * HistoryRecord)).

Lemma time_le_total x y : time_le x y \/ time_le y x.
Proof. apply String.leb_total. Qed.

Lemma time_le_trans x y z : time_le x y -> time_le y z -> time_le x z.
Proof.
  unfold time_le. intros H1%Is_true_true H2%Is_true_true.
  apply Is_true_true.
  exact (transitivity (R := String.le) H1 H2).
Qed.

Lemma insert_by_time_perm x l : insert_by_time x l ≡ₚ x :: l.
Proof.
  induction l as [|y r IH]; simpl; [done|].
  destruct (String.leb (h_time x) (h_time y)); [done|].
  rewrite IH. apply perm_swap.
Qed.

Lemma sorted_by_time_perm l : sorted_by_time l ≡ₚ l.
Proof.
  induction l as [|x r IH]; simpl; [done|].
  by rewrite insert_by_time_perm, IH.
Qed.



Lemma leb_refl (s : string) : String.leb s s = true.
Proof.
  apply Is_true_true. change (String.le s s). reflexivity.
Qed.

Lemma insert_by_time_stable x l (t : string) :
  List.filter (fun y => String.eqb (h_time y) t) (insert_by_time x l) =
  List.filter (fun y => String.eqb (h_time y) t) (x :: l).
Proof.
  induction l as [|y r IH]; [done|].
  cbn [insert_by_time].
  destruct (String.leb (h_time x) (h_time y)) eqn:E; [done|].
  cbn [List.filter] in *. rewrite IH.
  destruct (String.eqb_spec (h_time x) t) as [Hx | _]; [|done].
  destruct (String.eqb_spec (h_time y) t) as [Hy | _]; [|done].
  rewrite Hx, <- Hy, leb_refl in E. discriminate E.
Qed.

(** The sort is stable: records with the same timestamp keep the order
    they have in the ledger, as with Python's [sorted]. *)
Lemma sorted_by_time_stable l (t : string) :
  List.filter (fun y => String.eqb (h_time y) t) (sorted_by_time l) =
  List.filter (fun y => String.eqb (h_time y) t) l.
Proof.
  induction l as [|x r IH]; [done|].
  cbn [sorted_by_time]. rewrite insert_by_time_stable.
  cbn [List.filter]. by rewrite IH.
Qed.



End ExportRows.

Section TextLines.

Implicit Types (s t x cur : string) (l : list string).













End TextLines.




(** * Further properties *)

(** ** Rule explainer *)

Section ExplainerShape.

Implicit Types (base word : string) (syllables : list string).

Lemma suffix_loop_matching table base :
  suffix_loop table base [] =
    match List.filter (fun e => Py.endswith base e.1) table with
    | [] => []
    | e :: _ => [bullet e.2]
    end.
Proof.
  induction table as [|[suf text] rest IH]; simpl; [done|].
  destruct (Py.endswith base suf); [done | exact IH].
Qed.

(** At most one entry of the table matches, so the suffix step appends the
    explanations of all the matching entries. *)
Lemma suffix_loop_all_matches base :
  suffix_loop suffix_rules base [] =
    map (fun e => bullet e.2) (matching_suffixes base).
Proof.
  rewrite suffix_loop_matching. unfold matching_suffixes.
  pose proof (suffix_rules_exclusive base) as Hex.
  destruct (List.filter _ suffix_rules) as [|e [|e' l]]; simpl in *; [done..|lia].
Qed.

Lemma bullet_inj t1 t2 : bullet t1 = bullet t2 -> t1 = t2.
Proof. unfold bullet. apply String.app_inj. Qed.

Lemma unique_value_key (l : list (string * string)) a b t :
  NoDup (map snd l) -> In (a, t) l -> In (b, t) l -> a = b.
Proof.
  induction l as [|[k v] rest IH]; simpl; [done|].
  intros [Hv Hnd]%NoDup_cons [H1 | H1] [H2 | H2].
  - congruence.
  - injection H1 as -> ->. exfalso. apply Hv, list_elem_of_In.
    apply (in_map snd) in H2. exact H2.
  - injection H2 as -> ->. exfalso. apply Hv, list_elem_of_In.
    apply (in_map snd) in H1. exact H1.
  - by apply IH.
Qed.

Lemma suffix_texts_distinct suf1 suf2 text :
  In (suf1, text) suffix_rules -> In (suf2, text) suffix_rules -> suf1 = suf2.
Proof.
  apply unique_value_key. apply (bool_decide_unpack _). vm_compute. exact I.
Qed.

Lemma fired_cases word syllables :
  exists sfx,
    (sfx = [] \/ exists suf text, In (suf, text) suffix_rules /\ sfx = [bullet text])
    /\ fired word syllables =
         sfx ++ (if Re.search_vcc (Py.lower word) then [vcc_rule] else [])
             ++ (if Re.search_cvc (Py.lower word) then [cvc_rule] else [])
             ++ (if 3 <=? length syllables then [multi_rule] else []).
Proof.
  exists (suffix_loop suffix_rules (Py.lower word) []). split; [|done].
  destruct (suffix_loop_cases suffix_rules (Py.lower word))
    as [E | (suf & text & Hin & E)]; [by left|]. right. eauto.
Qed.

End ExplainerShape.

(** X1. The output of the rule explainer has no duplicates, at most four
    entries, and at most one suffix explanation. *)
Theorem explain_shape (word : string) (syllables : list string) :
  NoDup (explain_syllable_rules word syllables)
  /\ length (explain_syllable_rules word syllables) <= 4
  /\ length (List.filter is_suffix_text (explain_syllable_rules word syllables))
     <= 1.
Proof.
  rewrite explain_fired.
  destruct (fired_cases word syllables) as (sfx & Hs & ->).
  destruct Hs as [-> | (suf & text & Hin & ->)].
  - destruct (Re.search_vcc _), (Re.search_cvc _), (3 <=? _); simpl;
      (split; [apply (bool_decide_unpack _); vm_compute; exact I
              | split; vm_compute; lia]).
  - simpl in Hin.
    repeat (destruct Hin as [Hin | Hin];
            [ injection Hin as <- <-;
              destruct (Re.search_vcc _), (Re.search_cvc _), (3 <=? _); simpl;
              (split; [apply (bool_decide_unpack _); vm_compute; exact I
                      | split; vm_compute; lia])
            | ]).
    destruct Hin.
Qed.

(** X2. Each rule is in the output exactly when its test holds: the
    explanation of a table entry when the lowercase word ends with the
    suffix of the entry, the VCC and CVC notes when their pattern occurs in
    the lowercase word, the multi-syllable note when there are at least
    three syllables. *)
Theorem explain_rule_presence (word : string) (syllables : list string) :
  (forall suf text,
     In (suf, text) suffix_rules ->
     (In (bullet text) (explain_syllable_rules word syllables)
      <-> Py.endswith (Py.lower word) suf = true))
  /\ (In vcc_rule (explain_syllable_rules word syllables)
      <-> Re.search_vcc (Py.lower word) = true)
  /\ (In cvc_rule (explain_syllable_rules word syllables)
      <-> Re.search_cvc (Py.lower word) = true)
  /\ (In multi_rule (explain_syllable_rules word syllables)
      <-> 3 <= length syllables).
Proof.
  assert (Htail : forall x,
            In x ((if Re.search_vcc (Py.lower word) then [vcc_rule] else [])
                  ++ (if Re.search_cvc (Py.lower word) then [cvc_rule] else [])
                  ++ (if 3 <=? length syllables then [multi_rule] else []))
            <-> (x = vcc_rule /\ Re.search_vcc (Py.lower word) = true)
                \/ (x = cvc_rule /\ Re.search_cvc (Py.lower word) = true)
                \/ (x = multi_rule /\ 3 <= length syllables)).
  { intros x.
    destruct (Re.search_vcc _), (Re.search_cvc _), (Nat.leb_spec 3 (length syllables));
      simpl; intuition (try congruence; try lia). }
  assert (Hout : forall x,
            In x (explain_syllable_rules word syllables)
            <-> (exists e, In e (matching_suffixes (Py.lower word))
                           /\ x = bullet e.2)
                \/ (x = vcc_rule /\ Re.search_vcc (Py.lower word) = true)
                \/ (x = cvc_rule /\ Re.search_cvc (Py.lower word) = true)
                \/ (x = multi_rule /\ 3 <= length syllables)
                \/ (x = fallback_rule /\ fired word syllables = [])).
  { intros x. rewrite explain_fired.
    assert (Hf : In x (fired word syllables)
                 <-> (exists e, In e (matching_suffixes (Py.lower word))
                                /\ x = bullet e.2)
                     \/ (x = vcc_rule /\ Re.search_vcc (Py.lower word) = true)
                     \/ (x = cvc_rule /\ Re.search_cvc (Py.lower word) = true)
                     \/ (x = multi_rule /\ 3 <= length syllables)).
    { unfold fired. rewrite in_app_iff, Htail, suffix_loop_all_matches, in_map_iff.
      split; (intros [(e & H1 & H2) | H]; [left; exists e; auto | by right]). }
    destruct (fired word syllables) as [|y l] eqn:E.
    - simpl in Hf. simpl. split.
      + intros [<- | []]. by repeat right.
      + intros [H | [H | [H | [H | [-> _]]]]]; [| | | | by left];
          exfalso; apply Hf; tauto.
    - rewrite Hf. split; [tauto|].
      intros [H | [H | [H | [H | [_ ?]]]]]; [tauto..|done]. }
  assert (Hfired0 : fired word syllables = [] ->
            matching_suffixes (Py.lower word) = []
            /\ Re.search_vcc (Py.lower word) = false
            /\ Re.search_cvc (Py.lower word) = false
            /\ ~ 3 <= length syllables).
  { unfold fired. rewrite suffix_loop_all_matches.
    destruct (matching_suffixes (Py.lower word)); [|done].
    destruct (Re.search_vcc _); [done|]. destruct (Re.search_cvc _); [done|].
    destruct (Nat.leb_spec 3 (length syllables)); [done|]. intros _.
    repeat split. lia. }
  split; [|split; [|split]].
  - intros suf text Hin. rewrite Hout. split.
    + intros [([suf' text'] & He & Hx) | H].
      * apply bullet_inj in Hx. simpl in Hx. subst text'.
        unfold matching_suffixes in He. apply filter_In in He as [He Hm].
        by rewrite (suffix_texts_distinct suf suf' text Hin He).
      * exfalso. pose proof (is_suffix_text_spec suf text Hin) as Hs.
        destruct H as [[H _] | [[H _] | [[H _] | [H _]]]];
          rewrite H in Hs; discriminate Hs.
    + intros Hm. left. exists (suf, text). split; [|done].
      unfold matching_suffixes. apply filter_In. by split.
  - rewrite Hout. split; [|tauto].
    intros [(e & He & Hx) | [H | [[H _] | [[H _] | [H _]]]]];
      [| tauto | discriminate H..].
    exfalso. unfold matching_suffixes in He. apply filter_In in He as [He _].
    destruct e as [suf text]. apply is_suffix_text_spec in He.
    simpl in Hx. rewrite <- Hx in He. discriminate He.
  - rewrite Hout. split; [|tauto].
    intros [(e & He & Hx) | [[H _] | [H | [[H _] | [H _]]]]];
      [| discriminate H | tauto | discriminate H..].
    exfalso. unfold matching_suffixes in He. apply filter_In in He as [He _].
    destruct e as [suf text]. apply is_suffix_text_spec in He.
    simpl in Hx. rewrite <- Hx in He. discriminate He.
  - rewrite Hout. split; [|tauto].
    intros [(e & He & Hx) | [[H _] | [[H _] | [H | [H _]]]]];
      [| discriminate H.. | tauto | discriminate H].
    exfalso. unfold matching_suffixes in He. apply filter_In in He as [He _].
    destruct e as [suf text]. apply is_suffix_text_spec in He.
    simpl in Hx. rewrite <- Hx in He. discriminate He.
Qed.

Lemma explain_rule_presence_witness :
  In (bullet "后缀 -er 常单独成音节（如 teacher, computer）")
    (explain_syllable_rules "Computer" ["com"; "put"; "er"])
  /\ In multi_rule (explain_syllable_rules "Computer" ["com"; "put"; "er"]).
Proof.
  destruct (explain_rule_presence "Computer" ["com"; "put"; "er"])
    as (Hs & _ & _ & Hm).
  split.
  - apply (Hs "er"); [|reflexivity]. simpl. auto 10.
  - apply Hm. simpl. lia.
Defined.

(** ** Dictionary resolver *)

Section CleanRecords.

Implicit Types (s t : string) (v m entry : json) (r info : WordInfo).

Lemma stripped_text_is_stripped v s :
  stripped_text v = Some s -> is_stripped s = true.
Proof.
  destruct v as [| | | |t| |]; simpl; try done.
  destruct (Py.nonempty (Py.strip t)) eqn:E; [|done].
  intros [= <-]. unfold is_stripped. by rewrite E, strip_idem, String.eqb_refl.
Qed.

Lemma uniq_loop_stripped syns acc :
  forallb is_stripped acc = true ->
  forallb is_stripped (uniq_loop syns acc) = true.
Proof.
  revert acc. induction syns as [|x rest IH]; intros acc Hacc; simpl; [done|].
  destruct x as [| | | |t| |]; auto.
  destruct (Py.nonempty (Py.strip t)) eqn:E; simpl; [|auto].
  destruct (Py.mem (Py.strip t) acc); simpl; [auto|].
  apply IH. rewrite forallb_app, Hacc. simpl.
  unfold is_stripped. by rewrite E, strip_idem, String.eqb_refl.
Qed.

Lemma forallb_take {A : Type} (f : A -> bool) n (l : list A) :
  forallb f l = true -> forallb f (take n l) = true.
Proof.
  revert n. induction l as [|x r IH]; intros [|n]; simpl; try done.
  intros [Hx Hr]%andb_prop. rewrite Hx. simpl. auto.
Qed.

Lemma ipa_of_candidate_delimited cand s :
  ipa_of_candidate cand = Some s ->
  Py.nonempty s && is_delimited s = true.
Proof.
  destruct cand as [| | | |t| |]; simpl; try done.
  destruct (Py.nonempty (Py.strip t)) eqn:E; [|done].
  intros [= <-]. unfold wrap_ipa, is_delimited.
  destruct (Py.startswith "/" (Py.strip t) || Py.startswith "[" (Py.strip t)) eqn:Ed.
  - by rewrite E, Ed.
  - reflexivity.
Qed.

Lemma extract_definitions_clean m r info :
  extract_definitions m r = Ok info ->
  record_clean r = true -> record_clean info = true.
Proof.
  unfold extract_definitions. intros H Hr.
  destruct (py_get m "definitions") as [defs0|] eqn:E0; [|done].
  simpl in H. rewrite first_item_or_empty in H.
  destruct (first_item defs0) as [d|]; [|by injection H as <-].
  destruct (py_get d "definition") as [x|] eqn:E1; [|done].
  destruct (py_get d "example") as [y|] eqn:E2; [|done].
  destruct (py_get d "synonyms") as [z|] eqn:E3; [|done].
  simpl in H.
  pose proof (stripped_text_is_stripped x) as Hx.
  pose proof (stripped_text_is_stripped y) as Hy.
  unfold record_clean in *.
  apply andb_prop in Hr as [Hr Hsyn]. apply andb_prop in Hr as [Hr Hex].
  apply andb_prop in Hr as [Hr Hdef]. apply andb_prop in Hr as [Hipa Hpos].
  assert (Htake : forallb is_stripped (take 5 (uniq_loop
                    (match z with JArr l => l | _ => [] end) [])) = true).
  { apply forallb_take, uniq_loop_stripped. done. }
  destruct (or_empty_list z) as [| | | | |syns|] eqn:Ez;
    destruct (stripped_text x) as [d1|], (stripped_text y) as [e1|];
    injection H as <-; simpl;
    rewrite ?Hipa, ?Hpos, ?Hdef, ?Hex, ?Hsyn, ?(Hx _ eq_refl), ?(Hy _ eq_refl);
    simpl; try done.
  all: apply forallb_take, uniq_loop_stripped; done.
Qed.

Lemma extract_entry_clean entry info :
  extract_entry entry = Ok info -> record_clean info = true.
Proof.
  unfold extract_entry. intros H.
  destruct (ipa_candidate entry) as [cand|]; [|done]. simpl in H.
  unfold extract_meanings in H.
  destruct (py_get entry "meanings") as [ms|]; [|done]. simpl in H.
  rewrite first_item_or_empty in H.
  pose proof (ipa_of_candidate_delimited cand) as Hi.
  destruct (first_item ms) as [m|].
  - destruct (py_get m "partOfSpeech") as [p|]; [|done]. simpl in H.
    pose proof (stripped_text_is_stripped p) as Hp.
    apply extract_definitions_clean in H; [done|].
    destruct (ipa_of_candidate cand) as [i|], (stripped_text p) as [q|];
      unfold record_clean; simpl;
      rewrite ?(Hi _ eq_refl), ?(Hp _ eq_refl); done.
  - injection H as <-.
    destruct (ipa_of_candidate cand) as [i|]; unfold record_clean; simpl;
      rewrite ?(Hi _ eq_refl); done.
Qed.

End CleanRecords.

(** X3. Every string of a returned record is clean: an IPA is not empty
    and starts with a slash or a bracket; a part of speech, a definition,
    an example and every synonym is not empty and has no whitespace at
    either end. *)
Theorem fetched_record_clean (env : World) (calls : nat) (word : string)
    (info : WordInfo) :
  fetch_word_info_from_api env calls word = Ok info ->
  record_clean info = true.
Proof.
  unfold fetch_word_info_from_api. intros H.
  destruct (try_block env calls word) as [js|]; [|by injection H as <-].
  destruct js as [| | | | |[|entry rest]|]; try by injection H as <-.
  by apply extract_entry_clean in H.
Qed.

Lemma fetched_record_clean_witness :
  exists info,
    fetch_word_info_from_api (canned_world synonyms_document) 0 "happy" = Ok info
    /\ pos info = Some "adjective"
    /\ record_clean info = true.
Proof.
  eexists. split; [reflexivity|]. split; [reflexivity|].
  exact (fetched_record_clean (canned_world synonyms_document) 0 "happy" _ eq_refl).
Defined.

(** ** Cache and requests *)

Section CacheAndRequests.

Implicit Types (env : World) (st : Session) (pg : Page) (w word k : string)
  (words : list string) (info : WordInfo).

(** The three outcomes of [get_word_info]. *)
Lemma get_word_info_cases env st word :
  let key := Py.lower word in
  let st1 := (get_word_info env st word).1 in
  history st1 = history st /\ ticks st1 = ticks st
  /\ ((exists info,
         dict_cache st !! key = Some info
         /\ get_word_info env st word = (st, Ok info))
      \/ (exists info,
            dict_cache st !! key = None
            /\ fetch_word_info_from_api env (length (requests st)) key = Ok info
            /\ (get_word_info env st word).2 = Ok info
            /\ dict_cache st1 = <[key := info]> (dict_cache st)
            /\ requests st1 = requests st ++ [api_url env key])
      \/ (exists e,
            dict_cache st !! key = None
            /\ fetch_word_info_from_api env (length (requests st)) key = Raise e
            /\ (get_word_info env st word).2 = Raise e
            /\ dict_cache st1 = dict_cache st
            /\ requests st1 = requests st ++ [api_url env key])).
Proof.
  intros key st1. subst st1. unfold get_word_info. fold key.
  destruct (dict_cache st !! key) as [info|] eqn:E.
  - simpl. split; [done|]. split; [done|]. left. eauto.
  - destruct (fetch_word_info_from_api env (length (requests st)) key)
      as [info|e] eqn:F; simpl; (split; [done|]); (split; [done|]); right.
    + left. exists info. auto.
    + right. exists e. auto.
Qed.

Lemma canonical_lower w : Py.lower (canonical w) = canonical w.
Proof. unfold canonical. apply lower_idem. Qed.

(** The session and the outcome of the body of the loop for a counted
    token, in terms of the lookup. *)
Lemma process_word_session env pg w :
  Py.is_empty (Re.sub_non_letters w) = false ->
  let syllables := Py.split "-"%char (inserted env (canonical w)) in
  let st1 := (get_word_info env (session pg) (canonical w)).1 in
  match (get_word_info env (session pg) (canonical w)).2 with
  | Ok info =>
      (process_word env pg w).2 = None
      /\ session (process_word env pg w).1 =
           {| dict_cache := dict_cache st1;
              history := update_history (history st1) (canonical w)
                           (now env (ticks st1)) w (Py.join "·" syllables)
                           (length syllables) (ipa_or_empty info);
              requests := requests st1; ticks := ticks st1 + 1 |}
      /\ total_words (process_word env pg w).1 = total_words pg + 1
      /\ total_syllables (process_word env pg w).1
         = total_syllables pg + length syllables
      /\ exists card, cards (process_word env pg w).1 = cards pg ++ [card]
                      /\ card_cnt card = length syllables
  | Raise e =>
      (process_word env pg w).2 = Some e
      /\ session (process_word env pg w).1 = st1
      /\ total_words (process_word env pg w).1 = total_words pg + 1
      /\ total_syllables (process_word env pg w).1
         = total_syllables pg + length syllables
      /\ cards (process_word env pg w).1 = cards pg
  end.
Proof.
  intros Hne syllables st1. subst st1 syllables.
  unfold process_word. fold (canonical w). rewrite Hne.
  destruct (get_word_info env (session pg) (canonical w)) as [st [info|e]];
    simpl; [|done].
  repeat split. eexists. split; [reflexivity|]. reflexivity.
Qed.

Lemma process_word_skip env pg w :
  Py.is_empty (Re.sub_non_letters w) = true ->
  process_word env pg w = (pg, None).
Proof. intros H. unfold process_word. by rewrite H. Qed.


Lemma get_word_info_extends env st word :
  dict_cache st ⊆ dict_cache (get_word_info env st word).1
  /\ requests st `prefix_of` requests (get_word_info env st word).1
  /\ length (requests (get_word_info env st word).1) <= length (requests st) + 1.
Proof.
  destruct (get_word_info_cases env st word)
    as (_ & _ & [(info & _ & ->) | [(info & Hm & _ & _ & -> & ->)
                                   | (e & _ & _ & _ & -> & ->)]]); simpl.
  - split; [done|]. split; [done|]. lia.
  - split; [by apply insert_subseteq|]. split; [by eexists|].
    rewrite length_app. simpl. lia.
  - split; [done|]. split; [by eexists|]. rewrite length_app. simpl. lia.
Qed.

Lemma process_word_extends env pg w :
  dict_cache (session pg) ⊆ dict_cache (session (process_word env pg w).1)
  /\ requests (session pg) `prefix_of` requests (session (process_word env pg w).1)
  /\ length (requests (session (process_word env pg w).1)) + total_words pg
     <= length (requests (session pg)) + total_words (process_word env pg w).1.
Proof.
  destruct (Py.is_empty (Re.sub_non_letters w)) eqn:E.
  - rewrite (process_word_skip _ _ _ E). simpl. split; [done|]. split; [done|]. lia.
  - pose proof (process_word_session env pg w E) as H. simpl in H.
    pose proof (get_word_info_extends env (session pg) (canonical w))
      as (Hc & Hp & Hl).
    destruct ((get_word_info env (session pg) (canonical w)).2) as [info|e].
    + destruct H as (_ & -> & -> & _). simpl. split; [done|]. split; [done|]. lia.
    + destruct H as (_ & -> & -> & _). split; [done|]. split; [done|]. lia.
Qed.

Lemma process_words_extends env pg words :
  dict_cache (session pg) ⊆ dict_cache (session (process_words env pg words).1)
  /\ requests (session pg)
       `prefix_of` requests (session (process_words env pg words).1)
  /\ length (requests (session (process_words env pg words).1)) + total_words pg
     <= length (requests (session pg)) + total_words (process_words env pg words).1.
Proof.
  revert pg. induction words as [|w rest IH]; intros pg; simpl.
  - split; [done|]. split; [done|]. lia.
  - pose proof (process_word_extends env pg w) as (Hc & Hp & Hl).
    destruct (process_word env pg w) as [pg' [e|]]; simpl in *; [done|].
    destruct (IH pg') as (Hc' & Hp' & Hl').
    split; [by etrans|]. split; [by etrans|]. lia.
Qed.

Lemma act_extends env st a :
  dict_cache st ⊆ dict_cache (act env st a)
  /\ requests st `prefix_of` requests (act env st a).
Proof.
  destruct a as [text|]; simpl; [|done]. unfold run_input.
  destruct (Py.nonempty (Py.strip text)); [|done].
  destruct (process_words_extends env (start_page st)
              (Py.split_ws (Py.strip text))) as (Hc & Hp & _).
  done.
Qed.

Lemma run_actions_extends env st actions :
  dict_cache st ⊆ dict_cache (run_actions env st actions)
  /\ requests st `prefix_of` requests (run_actions env st actions).
Proof.
  revert st. induction actions as [|a rest IH]; intros st; simpl; [done|].
  destruct (act_extends env st a) as [Hc Hp].
  destruct (IH (act env st a)) as [Hc' Hp'].
  split; by etrans.
Qed.

End CacheAndRequests.

(** X4. A record once cached stays as it is: no sequence of actions
    changes or drops it, so a word is fetched at most once with success
    in a session. *)
Theorem cached_record_stays (env : World) (st : Session) (actions : list action)
    (k : string) (info : WordInfo) :
  dict_cache st !! k = Some info ->
  dict_cache (run_actions env st actions) !! k = Some info.
Proof.
  intros H. destruct (run_actions_extends env st actions) as [Hc _].
  by eapply lookup_weaken.
Qed.

Lemma cached_record_stays_witness :
  dict_cache
    (run_actions (canned_world synonyms_document)
       (get_word_info offline_world empty_session "Happy").1
       [EnterText "happy cat"; ClearHistory; EnterText "Happy"]) !! "happy"
  = Some base_result.
Proof.
  apply cached_record_stays. reflexivity.
Defined.

(** X5. The list of requests only grows at its end, and a run of the loop
    makes at most one request for each word it counts. *)
Theorem requests_bounded_by_words (env : World) (pg : Page) (words : list string) :
  requests (session pg)
    `prefix_of` requests (session (process_words env pg words).1)
  /\ length (requests (session (process_words env pg words).1)) + total_words pg
     <= length (requests (session pg)) + total_words (process_words env pg words).1.
Proof.
  destruct (process_words_extends env pg words) as (_ & Hp & Hl). done.
Qed.

(** X6. When the document is a non-empty array whose first entry is not
    an object, the [get] on it raises [AttributeError] outside the [try]
    block: a call of [get_word_info] that misses the cache raises it after
    one request and caches nothing, so the next call for the word makes
    another request. *)
Theorem non_object_entry_raises (env : World) (st : Session) (word : string)
    (entry : json) (rest : list json) :
  dict_cache st !! Py.lower word = None ->
  try_block env (length (requests st)) (Py.lower word)
    = Some (JArr (entry :: rest)) ->
  is_object entry = false ->
  let st1 := (get_word_info env st word).1 in
  (get_word_info env st word).2 = Raise AttributeError
  /\ dict_cache st1 = dict_cache st
  /\ requests st1 = requests st ++ [api_url env (Py.lower word)]
  /\ forall env',
       requests (get_word_info env' st1 word).1
       = requests st ++ [api_url env (Py.lower word)]
                     ++ [api_url env' (Py.lower word)].
Proof.
  intros Hmiss Htry Hobj.
  assert (F : fetch_word_info_from_api env (length (requests st)) (Py.lower word)
              = Raise AttributeError).
  { unfold fetch_word_info_from_api. rewrite Htry.
    unfold extract_entry, ipa_candidate. by destruct entry. }
  assert (E : get_word_info env st word =
              ({| dict_cache := dict_cache st; history := history st;
                  requests := requests st ++ [api_url env (Py.lower word)];
                  ticks := ticks st |}, Raise AttributeError)).
  { unfold get_word_info. by rewrite Hmiss, F. }
  rewrite E. simpl. repeat split.
  intros env'. unfold get_word_info. simpl. rewrite Hmiss.
  destruct (fetch_word_info_from_api env' _ _); simpl; by rewrite <- app_assoc.
Qed.

Lemma non_object_entry_raises_witness :
  (get_word_info (canned_world non_object_document) empty_session "Cat").2
    = Raise AttributeError
  /\ dict_cache (get_word_info (canned_world non_object_document)
                   empty_session "Cat").1 = ∅.
Proof.
  destruct (non_object_entry_raises (canned_world non_object_document)
              empty_session "Cat" (JInt 5) [] eq_refl eq_refl eq_refl)
    as (H1 & H2 & _).
  split; [exact H1 | exact H2].
Defined.

Section Rerun.

Implicit Types (env : World) (pg : Page) (w : string) (words : list string).

Lemma counted_not_empty w :
  counted w = true <-> Py.is_empty (Re.sub_non_letters w) = false.
Proof.
  unfold counted. rewrite cleaned_empty_iff.
  by destruct (no_letter_no_apostrophe w).
Qed.

Lemma all_cached_no_request env pg words :
  all_cached words (session pg) ->
  (process_words env pg words).2 = None
  /\ dict_cache (session (process_words env pg words).1) = dict_cache (session pg)
  /\ requests (session (process_words env pg words).1) = requests (session pg).
Proof.
  revert pg. induction words as [|w rest IH]; intros pg Hall; simpl; [done|].
  assert (Hw : (process_word env pg w).2 = None
               /\ dict_cache (session (process_word env pg w).1)
                  = dict_cache (session pg)
               /\ requests (session (process_word env pg w).1)
                  = requests (session pg)).
  { destruct (Py.is_empty (Re.sub_non_letters w)) eqn:E.
    - by rewrite (process_word_skip _ _ _ E).
    - pose proof (process_word_session env pg w E) as H. simpl in H.
      destruct (Hall w) as [info Hi]; [by left | by apply counted_not_empty|].
      rewrite <- canonical_lower in Hi.
      rewrite (get_word_info_hit env _ _ _ Hi) in H. simpl in H.
      destruct H as (-> & -> & _). done. }
  destruct Hw as (He & Hc & Hr).
  destruct (process_word env pg w) as [pg' [e|]]; simpl in *; [done|].
  destruct (IH pg') as (He' & Hc' & Hr').
  - intros w' Hin Hcnt. rewrite Hc. apply Hall; [by right | done].
  - split; [done|]. split; congruence.
Qed.

Lemma normal_run_caches env pg words :
  (process_words env pg words).2 = None ->
  all_cached words (session (process_words env pg words).1).
Proof.
  revert pg. induction words as [|w rest IH]; intros pg Hnone w' Hin Hcnt;
    [destruct Hin|].
  simpl in *.
  assert (Hw : (process_word env pg w).2 = None ->
               counted w = true ->
               is_Some (dict_cache (session (process_word env pg w).1)
                          !! canonical w)).
  { intros Hn Hc. apply counted_not_empty in Hc.
    pose proof (process_word_session env pg w Hc) as H. simpl in H.
    destruct (get_word_info_cases env (session pg) (canonical w))
      as (_ & _ & Hcases).
    rewrite canonical_lower in Hcases.
    destruct Hcases as [(info & Hhit & E) | [(info & _ & _ & E2 & Hins & _)
                                            | (e & _ & _ & E2 & _)]].
    - rewrite E in H. simpl in H. destruct H as (_ & -> & _). simpl. eauto.
    - rewrite E2 in H. destruct H as (_ & -> & _). simpl. rewrite Hins.
      rewrite lookup_insert_eq. eauto.
    - rewrite E2 in H. destruct H as (H & _). congruence. }
  pose proof (process_words_extends env (process_word env pg w).1 rest)
    as (Hsub & _).
  destruct (process_word env pg w) as [pg' [e|]] eqn:Ew; simpl in *; [done|].
  destruct Hin as [<- | Hin].
  - destruct (Hw eq_refl Hcnt) as [info Hi]. exists info.
    by eapply lookup_weaken.
  - by apply (IH pg').
Qed.

End Rerun.

(** X7. After a run of the loop that ended normally, every counted word of
    the text is cached: running the loop again on the same words, from any
    page with that cache and whatever the network and the hyphenator are
    then, raises nothing, makes no request and leaves the cache as it
    is. *)
Theorem rerun_without_network (env env' : World) (pg pg' : Page)
    (words : list string) :
  (process_words env pg words).2 = None ->
  dict_cache (session pg')
    = dict_cache (session (process_words env pg words).1) ->
  (process_words env' pg' words).2 = None
  /\ requests (session (process_words env' pg' words).1) = requests (session pg')
  /\ dict_cache (session (process_words env' pg' words).1)
     = dict_cache (session pg').
Proof.
  intros Hnone Hcache.
  destruct (all_cached_no_request env' pg' words) as (H1 & H2 & H3); [|done].
  unfold all_cached. rewrite Hcache. by apply normal_run_caches.
Qed.

Lemma rerun_without_network_witness :
  let pg1 := (process_words offline_world (start_page empty_session)
                ["The"; "cat,"; "the"; "--"]).1 in
  (process_words (canned_world non_object_document) pg1
     ["The"; "cat,"; "the"; "--"]).2 = None
  /\ requests (session (process_words (canned_world non_object_document) pg1
                          ["The"; "cat,"; "the"; "--"]).1)
     = requests (session pg1).
Proof.
  intros pg1.
  destruct (rerun_without_network offline_world
              (canned_world non_object_document) (start_page empty_session)
              pg1 ["The"; "cat,"; "the"; "--"] eq_refl eq_refl)
    as (H1 & H2 & _).
  split; [exact H1 | exact H2].
Defined.

(** ** Ledger and loop *)

Section LedgerOfWords.

Implicit Types (env : World) (pg : Page) (w k base : string)
  (words : list string) (h : list (string * HistoryRecord)).

Lemma dict_mem_keys {V : Type} k (d : list (string * V)) :
  dict_mem k d = Py.mem k (map fst d).
Proof.
  unfold dict_mem. induction d as [|[k0 v] rest IH]; simpl; [done|].
  destruct (String.eqb k0 k); [done | exact IH].
Qed.

Lemma canonical_words_cons w words :
  canonical_words (w :: words) =
    if counted w then canonical w :: canonical_words words
    else canonical_words words.
Proof. unfold canonical_words. simpl. by destruct (counted w). Qed.

(** What one pass through the body does to the ledger when it does not
    raise. *)
Lemma process_word_ledger env pg w :
  (process_word env pg w).2 = None ->
  if counted w then
    exists now_str ipa_for_history,
      history (session (process_word env pg w).1) =
        update_history (history (session pg)) (canonical w) now_str w
          (Py.join "·" (Py.split "-"%char (inserted env (canonical w))))
          (length (Py.split "-"%char (inserted env (canonical w))))
          ipa_for_history
  else process_word env pg w = (pg, None).
Proof.
  intros Hn. destruct (counted w) eqn:Ec.
  - apply counted_not_empty in Ec.
    pose proof (process_word_session env pg w Ec) as H. simpl in H.
    destruct (get_word_info_cases env (session pg) (canonical w)) as (Hh & _).
    destruct ((get_word_info env (session pg) (canonical w)).2) as [info|e].
    + destruct H as (_ & -> & _). simpl. rewrite Hh. eauto.
    + destruct H as (H & _). congruence.
  - apply process_word_skip. rewrite cleaned_empty_iff.
    unfold counted in Ec. by destruct (no_letter_no_apostrophe w).
Qed.

Lemma ledger_count_update h base now_str w pretty cnt ipa_for_history k :
  ledger_count k (update_history h base now_str w pretty cnt ipa_for_history) =
    ledger_count k h + (if String.eqb k base then 1 else 0).
Proof.
  unfold ledger_count. rewrite update_history_lookup.
  destruct (String.eqb_spec k base) as [-> | Hne]; [|lia].
  by destruct (assoc_get base h).
Qed.

End LedgerOfWords.

(** X8. After a run of the loop that ended normally, the keys of the
    ledger are the keys it had before, followed by the canonical words of
    the counted tokens that were not yet keys, each once, in the order of
    their first occurrence. *)
Theorem ledger_keys_of_run (env : World) (pg : Page) (words : list string) :
  (process_words env pg words).2 = None ->
  map fst (history (session (process_words env pg words).1)) =
    map fst (history (session pg))
    ++ List.filter
         (fun k => negb (Py.mem k (map fst (history (session pg)))))
         (dedup_first (canonical_words words)).
Proof.
  revert pg. induction words as [|w rest IH]; intros pg Hn; simpl in *.
  - by rewrite app_nil_r.
  - pose proof (process_word_ledger env pg w) as Hw.
    destruct (process_word env pg w) as [pg' [e|]] eqn:Ew; simpl in *; [done|].
    specialize (Hw eq_refl). rewrite canonical_words_cons.
    destruct (counted w).
    + destruct Hw as (t & i & Hh). rewrite (IH pg' Hn), Hh.
      rewrite update_history_keys, dict_mem_keys. simpl.
      destruct (Py.mem (canonical w) (map fst (history (session pg)))) eqn:Em;
        simpl.
      * by rewrite filter_mem_absorb.
      * by rewrite <- app_assoc, filter_filter_mem.
    + injection Hw as ->. by apply IH.
Qed.

Lemma ledger_keys_of_run_witness :
  map fst (history (session
    (process_words offline_world (start_page empty_session)
       ["The"; "cat,"; "--"; "saw"; "THE"; "Cat"]).1))
  = ["the"; "cat"; "saw"].
Proof.
  exact (ledger_keys_of_run offline_world (start_page empty_session)
           ["The"; "cat,"; "--"; "saw"; "THE"; "Cat"] eq_refl).
Defined.

(** X9. After a run of the loop that ended normally, the count stored for
    a word has risen by the number of counted tokens of the text whose
    canonical word it is (a word without an entry counting as 0). *)
Theorem ledger_count_of_run (env : World) (pg : Page) (words : list string)
    (k : string) :
  (process_words env pg words).2 = None ->
  ledger_count k (history (session (process_words env pg words).1)) =
    ledger_count k (history (session pg)) + occurrences k (canonical_words words).
Proof.
  revert pg. induction words as [|w rest IH]; intros pg Hn; simpl in *.
  - unfold occurrences. simpl. lia.
  - pose proof (process_word_ledger env pg w) as Hw.
    destruct (process_word env pg w) as [pg' [e|]] eqn:Ew; simpl in *; [done|].
    specialize (Hw eq_refl). rewrite canonical_words_cons.
    destruct (counted w).
    + destruct Hw as (t & i & Hh). rewrite (IH pg' Hn), Hh.
      rewrite ledger_count_update. unfold occurrences. simpl.
      destruct (String.eqb k (canonical w)); simpl; lia.
    + injection Hw as ->. by apply IH.
Qed.

Lemma ledger_count_of_run_witness :
  ledger_count "the" (history (session
    (process_words offline_world (start_page empty_session)
       ["The"; "cat,"; "--"; "saw"; "THE"; "Cat"; "the!"]).1)) = 3.
Proof.
  exact (ledger_count_of_run offline_world (start_page empty_session)
           ["The"; "cat,"; "--"; "saw"; "THE"; "Cat"; "the!"] "the" eq_refl).
Defined.

Section SessionInvariant.

(** A property of the session that a lookup, an update of the ledger with
    the data of the loop, and the clearing of the ledger keep. *)
Variable env : World.
Variable J : Session -> Prop.

Hypothesis J_lookup :
  forall st w, counted w = true -> J st ->
    J (get_word_info env st (canonical w)).1.

Hypothesis J_update :
  forall st w info,
    counted w = true ->
    dict_cache st !! canonical w = Some info ->
    J st ->
    J {| dict_cache := dict_cache st;
         history := update_history (history st) (canonical w)
                      (now env (ticks st)) w
                      (Py.join "·" (Py.split "-"%char (inserted env (canonical w))))
                      (length (Py.split "-"%char (inserted env (canonical w))))
                      (ipa_or_empty info);
         requests := requests st; ticks := ticks st + 1 |}.

Hypothesis J_clear :
  forall st, J st ->
    J {| dict_cache := dict_cache st; history := []; requests := requests st;
         ticks := ticks st |}.

Lemma get_word_info_Ok_cached st word info :
  (get_word_info env st word).2 = Ok info ->
  dict_cache (get_word_info env st word).1 !! Py.lower word = Some info.
Proof.
  destruct (get_word_info_cases env st word)
    as (_ & _ & [(i & Hhit & E) | [(i & _ & _ & E2 & Hins & _)
                                  | (e & _ & _ & E2 & _)]]).
  - rewrite E. simpl. by intros [= <-].
  - rewrite E2, Hins. intros [= <-]. apply lookup_insert_eq.
  - rewrite E2. done.
Qed.

Lemma process_word_session_keeps pg w :
  J (session pg) -> J (session (process_word env pg w).1).
Proof.
  intros H. destruct (counted w) eqn:Ec.
  - pose proof Ec as Hne. apply counted_not_empty in Hne.
    pose proof (process_word_session env pg w Hne) as Hs. simpl in Hs.
    pose proof (J_lookup _ w Ec H) as H1.
    pose proof (get_word_info_Ok_cached (session pg) (canonical w)) as Hc.
    rewrite canonical_lower in Hc.
    destruct ((get_word_info env (session pg) (canonical w)).2) as [info|e].
    + destruct Hs as (_ & -> & _). apply J_update; auto.
    + by destruct Hs as (_ & -> & _).
  - rewrite process_word_skip; [done|]. rewrite cleaned_empty_iff.
    unfold counted in Ec. by destruct (no_letter_no_apostrophe w).
Qed.

Lemma process_words_session_keeps pg words :
  J (session pg) -> J (session (process_words env pg words).1).
Proof.
  revert pg. induction words as [|w rest IH]; intros pg H; simpl; [done|].
  pose proof (process_word_session_keeps pg w H) as Hw.
  destruct (process_word env pg w) as [pg' [e|]]; simpl in *; [done|].
  by apply IH.
Qed.

Lemma run_actions_session_keeps st actions :
  J st -> J (run_actions env st actions).
Proof.
  revert st. induction actions as [|a rest IH]; intros st H; simpl; [done|].
  apply IH. destruct a as [text|]; simpl; [|by apply J_clear].
  unfold run_input. destruct (Py.nonempty (Py.strip text)); [|done].
  by apply process_words_session_keeps.
Qed.

End SessionInvariant.

(** X10. In every record of the ledger the raw input cleans to the key,
    the syllable split and the syllable number are those of the key as
    the hyphenator gives them, and the count is at least 1, after any
    sequence of actions from the empty session. *)
Theorem ledger_records_of_key (env : World) (actions : list action) :
  Forall (record_of_key env)
    (history (run_actions env empty_session actions)).
Proof.
  apply (run_actions_session_keeps env
           (fun st => Forall (record_of_key env) (history st))).
  - intros st w _ H. by rewrite (proj1 (get_word_info_cases env st (canonical w))).
  - intros st w info _ _ H. simpl. unfold update_history.
    destruct (dict_mem (canonical w) (history st)).
    + apply Forall_alter; [|done]. unfold record_of_key. simpl.
      intros v (_ & _ & _ & Hc). repeat split. lia.
    + apply Forall_app. split; [done|]. constructor; [|constructor].
      unfold record_of_key. simpl. repeat split. lia.
  - intros st _. constructor.
  - constructor.
Qed.

(** X11. The session stays coherent after any sequence of actions from
    the empty session: every cached key is a canonical word whose URL is
    in the list of requests, and the IPA of every record of the ledger is
    the IPA of the cached record of its key (empty when that one has
    none). *)
Theorem session_coherent (env : World) (actions : list action) :
  cache_coherent env (run_actions env empty_session actions).
Proof.
  apply (run_actions_session_keeps env (cache_coherent env)).
  - intros st w Hc [Hcache Hled].
    destruct (get_word_info_cases env st (canonical w))
      as (Hh & _ & Hcases). rewrite canonical_lower in Hcases.
    destruct Hcases as [(i & _ & ->) | [(i & Hmiss & _ & _ & Hins & Hreq)
                                       | (e & _ & _ & _ & Hsame & Hreq)]].
    + done.
    + split.
      * intros k info. rewrite Hins, Hreq, lookup_insert.
        destruct (decide (canonical w = k)) as [<- | Hne].
        -- intros _. split.
           ++ apply canonical_is_canonical. by apply counted_not_empty.
           ++ apply in_or_app. right. by left.
        -- intros Hk. destruct (Hcache k info Hk) as [H1 H2].
           split; [done|]. apply in_or_app. by left.
      * rewrite Hh. eapply Forall_impl; [exact Hled|].
        intros [k e] (info & Hk & Hi). simpl in *. exists info.
        split; [|done]. rewrite Hins, lookup_insert_ne; [done|].
        intros <-. congruence.
    + split.
      * intros k info. rewrite Hsame, Hreq. intros Hk.
        destruct (Hcache k info Hk) as [H1 H2].
        split; [done|]. apply in_or_app. by left.
      * rewrite Hh, Hsame. exact Hled.
  - intros st w info _ Hinfo [Hcache Hled]. split; [exact Hcache|]. simpl.
    unfold update_history. destruct (dict_mem (canonical w) (history st)).
    + apply Forall_alter; [|done]. simpl. intros v _. eauto.
    + apply Forall_app. split; [done|]. constructor; [|constructor].
      simpl. eauto.
  - intros st [Hcache _]. split; [exact Hcache | constructor].
  - split; [|constructor]. intros k info Hk. simpl in Hk.
    by rewrite lookup_empty in Hk.
Qed.

Section Totals.

Implicit Types (env : World) (pg : Page) (w : string) (words : list string).

Lemma card_syllables_app cs c :
  card_syllables (cs ++ [c]) = card_syllables cs + card_cnt c.
Proof.
  unfold card_syllables. rewrite map_app, list_sum_app. simpl. lia.
Qed.

(** The totals and the cards move together, except for the word on which
    the lookup raises: it is counted and has no card. *)
Lemma process_word_cards env pg w :
  match (process_word env pg w).2 with
  | None =>
      total_words (process_word env pg w).1 + length (cards pg)
      = total_words pg + length (cards (process_word env pg w).1)
      /\ total_syllables (process_word env pg w).1 + card_syllables (cards pg)
         = total_syllables pg + card_syllables (cards (process_word env pg w).1)
  | Some _ =>
      total_words (process_word env pg w).1 = total_words pg + 1
      /\ cards (process_word env pg w).1 = cards pg
      /\ total_syllables pg < total_syllables (process_word env pg w).1
  end.
Proof.
  destruct (Py.is_empty (Re.sub_non_letters w)) eqn:E.
  - rewrite (process_word_skip _ _ _ E). simpl. lia.
  - pose proof (process_word_session env pg w E) as H. simpl in H.
    pose proof (split_length "-"%char (inserted env (canonical w))) as Hlen.
    destruct ((get_word_info env (session pg) (canonical w)).2) as [info|e].
    + destruct H as (-> & _ & -> & -> & card & -> & Hc).
      rewrite length_app, card_syllables_app, Hc. simpl. lia.
    + destruct H as (-> & _ & -> & -> & ->). split; [lia|]. split; [done|lia].
Qed.

Lemma process_words_cards env pg words :
  match (process_words env pg words).2 with
  | None =>
      total_words (process_words env pg words).1 + length (cards pg)
      = total_words pg + length (cards (process_words env pg words).1)
      /\ total_syllables (process_words env pg words).1 + card_syllables (cards pg)
         = total_syllables pg
           + card_syllables (cards (process_words env pg words).1)
  | Some _ =>
      total_words (process_words env pg words).1 + length (cards pg)
      = total_words pg + length (cards (process_words env pg words).1) + 1
      /\ total_syllables pg + card_syllables (cards (process_words env pg words).1)
         < total_syllables (process_words env pg words).1
           + card_syllables (cards pg)
  end.
Proof.
  revert pg. induction words as [|w rest IH]; intros pg; simpl; [lia|].
  pose proof (process_word_cards env pg w) as Hw.
  destruct (process_word env pg w) as [pg' [e|]]; simpl in *.
  - destruct Hw as (-> & -> & ?). lia.
  - specialize (IH pg').
    destruct ((process_words env pg' rest).2); lia.
Qed.

End Totals.

(** X12. The statistics of a run agree with its cards: when the run ends
    normally, the total of words is the number of cards and the total of
    syllables is the sum of the syllable numbers on the cards; when it ends
    by an exception, the word that raised is counted and has no card. *)
Theorem totals_match_cards (env : World) (st : Session) (text : string) :
  match (run_input env st text).2 with
  | None =>
      total_words (run_input env st text).1
      = length (cards (run_input env st text).1)
      /\ total_syllables (run_input env st text).1
         = card_syllables (cards (run_input env st text).1)
  | Some _ =>
      total_words (run_input env st text).1
      = length (cards (run_input env st text).1) + 1
      /\ card_syllables (cards (run_input env st text).1)
         < total_syllables (run_input env st text).1
  end.
Proof.
  unfold run_input. destruct (Py.nonempty (Py.strip text)); [|done].
  pose proof (process_words_cards env (start_page st)
                (Py.split_ws (Py.strip text))) as H.
  destruct ((process_words env (start_page st) (Py.split_ws (Py.strip text))).2);
    simpl in H; unfold card_syllables in *; simpl in H; lia.
Qed.

(** ** Tokens *)

Section Tokens.

Implicit Types (f : ascii -> bool) (s t cur : string) (c : ascii).

Lemma split_ws_forall f s :
  string_forall f s = true ->
  Forall (fun t => string_forall f t = true) (Py.split_ws (Py.strip s)).
Proof.
  intros H. apply (words_go_forall f None); [|done].
  by apply string_forall_rstrip, string_forall_lstrip.
Qed.

Lemma process_words_all_skipped env pg words :
  Forall (fun t => no_letter_no_apostrophe t = true) words ->
  process_words env pg words = (pg, None).
Proof.
  induction 1 as [|w rest Hw _ IH]; simpl; [done|].
  rewrite process_word_skip; [exact IH|]. by rewrite cleaned_empty_iff.
Qed.

End Tokens.

(** X13. A text without any letter and without any apostrophe (blanks,
    digits, punctuation, an empty text) changes nothing: no token is
    counted, no card is rendered, and the session, with its ledger, cache
    and list of requests, is as before. *)
Theorem text_without_words_is_ignored (env : World) (st : Session)
    (text : string) :
  no_letter_no_apostrophe text = true ->
  run_input env st text = (start_page st, None).
Proof.
  intros H. unfold run_input.
  destruct (Py.nonempty (Py.strip text)); [|done].
  apply process_words_all_skipped. by apply split_ws_forall.
Qed.

Lemma text_without_words_is_ignored_witness :
  run_input offline_world empty_session "  -- 42, (!?)  ... "
  = (start_page empty_session, None).
Proof.
  apply text_without_words_is_ignored. reflexivity.
Defined.

(** ** Syllable split *)

Section Hyphens.

Implicit Types (s t cur acc : string) (c : ascii).

Lemma join_cons sep x l :
  l <> [] -> Py.join sep (x :: l) = x +:+ sep +:+ Py.join sep l.
Proof. by destruct l. Qed.

Lemma split_go_join cur s :
  Py.join "·" (Py.split_go "-"%char cur s)
  = String.rev cur +:+ dots_for_hyphens s
  /\ length (Py.split_go "-"%char cur s) = count_hyphens s + 1.
Proof.
  revert cur. induction s as [|c r IH]; intros cur; simpl.
  - by rewrite string_app_empty_r.
  - destruct (Ascii.eqb c "-"%char).
    + destruct (IH EmptyString) as [Hj Hl]. split; [|simpl; lia].
      rewrite join_cons.
      * by rewrite Hj.
      * intros E. rewrite E in Hl. simpl in Hl. lia.
    + destruct (IH (String c cur)) as [Hj Hl]. split; [|exact Hl].
      by rewrite Hj, rev_cons, string_app_assoc.
Qed.

End Hyphens.

(** X14. The syllable split shown for a hyphenated word is that word with
    a middle dot in place of every hyphen, and the syllable number is the
    number of its hyphens plus one. *)
Theorem pretty_is_dotted (hyphenated : string) :
  Py.join "·" (Py.split "-"%char hyphenated) = dots_for_hyphens hyphenated
  /\ length (Py.split "-"%char hyphenated) = count_hyphens hyphenated + 1.
Proof. apply (split_go_join EmptyString). Qed.

(** ** Canonical words *)

Section CanonicalForm.

Implicit Types (w k : string) (c : ascii).

Lemma lower_char_kept c :
  Py.is_letter (Py.lower_char c) || Ascii.eqb (Py.lower_char c) "'"%char
  = Py.is_letter c || Ascii.eqb c "'"%char.
Proof. destruct c as [[] [] [] [] [] [] [] []]; reflexivity. Qed.

Lemma lower_sub_commute w :
  Py.lower (Re.sub_non_letters w) = Re.sub_non_letters (Py.lower w).
Proof.
  induction w as [|c r IH]; simpl; [done|]. rewrite lower_char_kept.
  destruct (Py.is_letter c || Ascii.eqb c "'"%char); simpl; by rewrite IH.
Qed.

Lemma canonical_char_fixed c :
  Py.is_lower c || Ascii.eqb c "'"%char = true ->
  Py.is_letter c || Ascii.eqb c "'"%char = true /\ Py.lower_char c = c.
Proof. destruct c as [[] [] [] [] [] [] [] []]; vm_compute; done. Qed.

Lemma canonical_fixed k :
  string_forall (fun c => Py.is_lower c || Ascii.eqb c "'"%char) k = true ->
  canonical k = k.
Proof.
  unfold canonical. induction k as [|c r IH]; simpl; [done|].
  intros [Hc Hr]%andb_prop. destruct (canonical_char_fixed c Hc) as [-> Hl].
  simpl. by rewrite Hl, IH.
Qed.

End CanonicalForm.

(** X15. For a token of ASCII characters, cleaning and lowering can be
    done in either order and the canonical word does not depend on the
    case of the letters.  For every token, the canonical word is its own
    canonical word, as is every non-empty word of lowercase letters and
    apostrophes: a key of the ledger entered as a token leads to that key
    again. *)
Theorem canonical_form (w : string) :
  (is_ascii w = true ->
     Py.lower (Re.sub_non_letters w) = Re.sub_non_letters (Py.lower w)
     /\ canonical (Py.lower w) = canonical w)
  /\ canonical (canonical w) = canonical w
  /\ forall k, is_canonical k = true -> canonical k = k.
Proof.
  split; [|split].
  - intros _. split; [apply lower_sub_commute|].
    unfold canonical. by rewrite <- lower_sub_commute, lower_idem.
  - apply canonical_fixed, canonical_chars.
  - intros k [_ Hk]%andb_prop. by apply canonical_fixed.
Qed.

Lemma canonical_form_witness :
  canonical (Py.lower "It's!") = canonical "It's!"
  /\ canonical "it's" = "it's".
Proof.
  split.
  - exact (proj2 (proj1 (canonical_form "It's!") eq_refl)).
  - exact (proj2 (proj2 (canonical_form "x")) "it's" eq_refl).
Defined.

(** ** More on the extraction *)

Section Meanings.

Implicit Types (entry m v : json) (r info : WordInfo).

Lemma extract_definitions_fields m r info :
  extract_definitions m r = Ok info ->
  definition r = None -> example r = None ->
  definition info = text_field "definition" (first_item (field "definitions" m))
  /\ example info = text_field "example" (first_item (field "definitions" m)).
Proof.
  unfold extract_definitions. intros H Hd He.
  destruct (py_get m "definitions") as [defs0|] eqn:E0; [|done].
  apply py_get_Ok in E0 as [_ ->]. simpl in H.
  rewrite first_item_or_empty in H.
  destruct (first_item (field "definitions" m)) as [d|];
    [|injection H as <-; by rewrite Hd, He].
  destruct (py_get d "definition") as [x|] eqn:E1; [|done].
  destruct (py_get d "example") as [y|] eqn:E2; [|done].
  destruct (py_get d "synonyms") as [z|] eqn:E3; [|done].
  apply py_get_Ok in E1 as [_ ->]. apply py_get_Ok in E2 as [_ ->].
  simpl in H. simpl.
  destruct (or_empty_list z);
    destruct (stripped_text (field "definition" d)),
             (stripped_text (field "example" d));
    injection H as <-; simpl; by rewrite ?Hd, ?He.
Qed.

Lemma extract_entry_fields entry info :
  extract_entry entry = Ok info ->
  pos info = text_field "partOfSpeech" (first_meaning entry)
  /\ definition info = text_field "definition" (first_definition entry)
  /\ example info = text_field "example" (first_definition entry).
Proof.
  unfold extract_entry, first_definition, first_meaning. intros H.
  destruct (ipa_candidate entry) as [cand|]; [|done]. simpl in H.
  unfold extract_meanings in H.
  destruct (py_get entry "meanings") as [ms|] eqn:E0; [|done].
  apply py_get_Ok in E0 as [_ ->]. simpl in H.
  rewrite first_item_or_empty in H.
  destruct (first_item (field "meanings" entry)) as [m|].
  - destruct (py_get m "partOfSpeech") as [p|] eqn:E1; [|done].
    apply py_get_Ok in E1 as [_ ->]. simpl in H.
    pose proof (extract_definitions_spec _ _ _ H) as Hs.
    pose proof (extract_definitions_fields _ _ _ H) as Hf.
    cbn [text_field].
    destruct (ipa_of_candidate cand), (stripped_text (field "partOfSpeech" m));
      simpl in *; destruct (Hs eq_refl) as (_ & -> & _);
      destruct (Hf eq_refl eq_refl) as (-> & ->); done.
  - injection H as <-. by destruct (ipa_of_candidate cand).
Qed.

End Meanings.

(** X16. The part of speech of a returned record is read from the first
    meaning of the first entry only, and the definition and the example
    from the first definition of that meaning only: each is the stripped
    string of its field, and is absent when the field is missing, is not
    a string or is blank, whatever later meanings and definitions hold. *)
Theorem first_meaning_only (env : World) (calls : nat) (word : string)
    (entry : json) (rest : list json) (info : WordInfo) :
  try_block env calls word = Some (JArr (entry :: rest)) ->
  fetch_word_info_from_api env calls word = Ok info ->
  pos info = text_field "partOfSpeech" (first_meaning entry)
  /\ definition info = text_field "definition" (first_definition entry)
  /\ example info = text_field "example" (first_definition entry).
Proof.
  unfold fetch_word_info_from_api. intros -> H.
  by apply extract_entry_fields.
Qed.

Lemma first_meaning_only_witness :
  (exists info,
     fetch_word_info_from_api (canned_world synonyms_document) 0 "happy" = Ok info
     /\ pos info = Some "adjective"
     /\ definition info = Some "Feeling joy."
     /\ example info = None)
  /\ (exists info,
        fetch_word_info_from_api (canned_world nbsp_document) 0 "x" = Ok info
        /\ pos info = Some "noun"
        /\ definition info = None
        /\ example info = None).
Proof.
  split.
  - eexists. split; [reflexivity|].
    exact (first_meaning_only (canned_world synonyms_document) 0 "happy" _ _ _
             eq_refl eq_refl).
  - eexists. split; [reflexivity|].
    exact (first_meaning_only (canned_world nbsp_document) 0 "x" _ _ _
             eq_refl eq_refl).
Defined.

(** X17. A direct [phonetic] value that is true as a condition but is not
    a string with content other than whitespace (a number, [true], a
    list, an object, a blank string) ends the IPA extraction without an
    IPA: the [phonetics] list is not looked at, whatever it holds. *)
Theorem unusable_phonetic_blocks_fallback (entry : json) :
  is_object entry = true ->
  truthy (field "phonetic" entry) = true ->
  (forall s, field "phonetic" entry = JStr s -> blank s = true) ->
  ipa_extraction entry = Ok None.
Proof.
  intros Hobj Ht Hb. unfold ipa_extraction, ipa_candidate.
  rewrite (py_get_object _ _ Hobj). cbn [rbind]. rewrite Ht. cbn [negb rbind].
  destruct (field "phonetic" entry) as [| | | |s| |]; try done.
  specialize (Hb s eq_refl). unfold blank in Hb.
  unfold ipa_of_candidate, Py.nonempty. by rewrite Hb.
Qed.

Lemma unusable_phonetic_blocks_fallback_witness :
  ipa_extraction blank_phonetic_entry = Ok None
  /\ ipa_extraction (JObj [("phonetic", JInt 7); ("phonetics", JStr "x")])
     = Ok None.
Proof.
  split.
  - apply unusable_phonetic_blocks_fallback; [reflexivity | reflexivity |].
    intros s [= <-]. reflexivity.
  - apply unusable_phonetic_blocks_fallback; [reflexivity | reflexivity |].
    intros s Hs. discriminate Hs.
Defined.

(** X18. When the direct [phonetic] value is missing or false as a
    condition, the scan of [phonetics] raises [AttributeError] at the first
    element that is not an object, unless an element before it has a
    usable text; the whole extraction then raises as well. *)
Theorem non_object_phonetics_raises (entry : json) (pre post : list json)
    (p : json) :
  is_object entry = true ->
  truthy (field "phonetic" entry) = false ->
  field "phonetics" entry = JArr (pre ++ p :: post) ->
  forallb (fun q => is_object q && unusable_text q) pre = true ->
  is_object p = false ->
  ipa_extraction entry = Raise AttributeError
  /\ extract_entry entry = Raise AttributeError.
Proof.
  intros Hobj Hf Hps Hpre Hp.
  assert (Hscan : forall cand,
            scan_phonetics (pre ++ p :: post) cand = Raise AttributeError).
  { clear Hps. intros cand. induction pre as [|q pre IH]; simpl.
    - by destruct p.
    - simpl in Hpre. apply andb_prop in Hpre as [Hq Hrest].
      apply andb_prop in Hq as [Hqo Hqu].
      rewrite (py_get_object _ _ Hqo). simpl.
      unfold unusable_text, blank in Hqu.
      destruct (field "text" q) as [| | | |u| |]; try by apply IH.
      unfold Py.nonempty. rewrite Hqu. simpl. by apply IH. }
  assert (Hc : ipa_candidate entry = Raise AttributeError).
  { unfold ipa_candidate. rewrite (py_get_object _ _ Hobj). cbn [rbind].
    rewrite Hf. cbn [negb]. rewrite (py_get_object _ _ Hobj), Hps. cbn [rbind].
    replace (or_empty_list (JArr (pre ++ p :: post)))
      with (JArr (pre ++ p :: post)) by (by destruct pre).
    apply Hscan. }
  unfold ipa_extraction, extract_entry. by rewrite Hc.
Qed.

Lemma non_object_phonetics_raises_witness :
  extract_entry
    (JObj [("phonetics", JArr [JObj [("text", JStr " ")]; JStr "/a/"])])
  = Raise AttributeError.
Proof.
  exact (proj2 (non_object_phonetics_raises
                  (JObj [("phonetics", JArr [JObj [("text", JStr " ")]; JStr "/a/"])])
                  [JObj [("text", JStr " ")]] [] (JStr "/a/")
                  eq_refl eq_refl eq_refl eq_refl eq_refl)).
Defined.

(** ** History table *)

Section Table.

Implicit Types (x y : HistoryRecord) (l : list HistoryRecord).

Lemma insert_by_time_desc_perm x l : insert_by_time_desc x l ≡ₚ x :: l.
Proof.
  induction l as [|y r IH]; simpl; [done|].
  destruct (String.leb (h_time y) (h_time x)); [done|].
  rewrite IH. apply perm_swap.
Qed.

Lemma sorted_by_time_desc_perm l : sorted_by_time_desc l ≡ₚ l.
Proof.
  induction l as [|x r IH]; simpl; [done|].
  by rewrite insert_by_time_desc_perm, IH.
Qed.

Lemma insert_by_time_desc_sorted x l :
  StronglySorted (fun a b => time_le b a) l ->
  StronglySorted (fun a b => time_le b a) (insert_by_time_desc x l).
Proof.
  induction l as [|y r IH]; simpl; intros Hs.
  - repeat constructor.
  - apply StronglySorted_inv in Hs as [Hr Hy].
    destruct (String.leb (h_time y) (h_time x)) eqn:E.
    + constructor; [by constructor|].
      constructor; [exact E|].
      eapply Forall_impl; [exact Hy|]. intros z Hz.
      by apply (time_le_trans z y x).
    + constructor; [by apply IH|].
      rewrite insert_by_time_desc_perm. constructor; [|done].
      destruct (time_le_total x y) as [H | H]; [done|].
      unfold time_le in H. congruence.
Qed.

Lemma sorted_by_time_desc_sorted l :
  StronglySorted (fun a b => time_le b a) (sorted_by_time_desc l).
Proof.
  induction l as [|x r IH]; simpl; [constructor|].
  by apply insert_by_time_desc_sorted.
Qed.

End Table.

(** X19. The history table is shown exactly when the ledger is not empty;
    it holds the records of the ledger, each once, with the latest
    timestamp first, and so the same records as the data rows of the
    export. *)
Theorem history_table_rows (h : list (string * HistoryRecord)) :
  (history_table h = None <-> h = [])
  /\ forall rows,
       history_table h = Some rows ->
       rows ≡ₚ map snd h
       /\ StronglySorted (fun a b => time_le b a) rows
       /\ exists e, export h = Some e
                    /\ tl (csv_rows e) ≡ₚ map csv_row rows.
Proof.
  split; [by destruct h|].
  intros rows Hr.
  assert (Hrows : rows = sorted_by_time_desc (map snd h)).
  { destruct h; [discriminate Hr|]. by injection Hr as <-. }
  assert (He : export h =
               Some {| csv_rows :=
                         headers :: map csv_row (sorted_by_time (map snd h));
                       txt_lines :=
                         Py.join tab headers
                         :: map txt_line (sorted_by_time (map snd h)) |}).
  { destruct h; [discriminate Hr|]. reflexivity. }
  subst rows.
  split; [apply sorted_by_time_desc_perm|].
  split; [apply sorted_by_time_desc_sorted|].
  eexists. split; [exact He|]. cbn [csv_rows tl].
  apply Permutation_map.
  by rewrite sorted_by_time_perm, sorted_by_time_desc_perm.
Qed.

Lemma history_table_rows_witness :
  exists rows,
    history_table example_ledger = Some rows
    /\ map h_base rows = ["cat"; "teacher"; "computer"]
    /\ StronglySorted (fun a b => time_le b a) rows.
Proof.
  eexists. split; [reflexivity|]. split; [reflexivity|].
  exact (proj1 (proj2 (proj2 (history_table_rows example_ledger) _ eq_refl))).
Defined.

(** ** The patterns *)

Section Patterns.

Implicit Types (s pre post : string) (a b c : ascii).

Lemma search_vcc_cons a s :
  Re.search_vcc (String a s) =
    match s with
    | String b (String c _) =>
        (Re.is_vowel a && Re.is_consonant b && Re.is_consonant c)
        || Re.search_vcc s
    | _ => Re.search_vcc s
    end.
Proof. by destruct s as [|b [|c t]]. Qed.

Lemma search_cvc_cons a s :
  Re.search_cvc (String a s) =
    match s with
    | String b (String c _) =>
        (Re.is_consonant a && Re.is_vowel b && Re.is_consonant c)
        || Re.search_cvc s
    | _ => Re.search_cvc s
    end.
Proof. by destruct s as [|b [|c t]]. Qed.

Lemma has_window_cons p1 p2 p3 a s :
  has_window p1 p2 p3 (String a s) <->
  (exists b c post, s = String b (String c post)
                    /\ p1 a = true /\ p2 b = true /\ p3 c = true)
  \/ has_window p1 p2 p3 s.
Proof.
  split.
  - intros (pre & x & y & z & post & E & H1 & H2 & H3).
    destruct pre as [|p pre]; simpl in E.
    + injection E as -> ->. left. eauto 10.
    + injection E as -> ->. right. exists pre, x, y, z, post. auto.
  - intros [(b & c & post & -> & H1 & H2 & H3)
           | (pre & x & y & z & post & -> & H1 & H2 & H3)].
    + exists EmptyString, a, b, c, post. auto.
    + exists (String a pre), x, y, z, post. auto.
Qed.

Lemma has_window_short p1 p2 p3 s :
  String.length s < 3 -> ~ has_window p1 p2 p3 s.
Proof.
  intros Hl (pre & x & y & z & post & -> & _).
  induction pre as [|p pre IH]; simpl in Hl; [lia|]. apply IH. lia.
Qed.

Lemma search_vcc_window s :
  Re.search_vcc s = true
  <-> has_window Re.is_vowel Re.is_consonant Re.is_consonant s.
Proof.
  induction s as [|a s IH].
  - split; [done|]. intros H. exfalso.
    eapply has_window_short; [|exact H]. simpl. lia.
  - rewrite search_vcc_cons, has_window_cons, <- IH.
    destruct s as [|b [|c t]].
    + split; [by right | intros [(?&?&?&?&_) | ?]; done].
    + split; [by right | intros [(?&?&?&?&_) | ?]; done].
    + rewrite orb_true_iff, !andb_true_iff. split.
      * intros [[[H1 H2] H3] | H]; [left; eauto 10 | by right].
      * intros [(b' & c' & post & [= <- <- <-] & H1 & H2 & H3) | H];
          [by left | by right].
Qed.

Lemma search_cvc_window s :
  Re.search_cvc s = true
  <-> has_window Re.is_consonant Re.is_vowel Re.is_consonant s.
Proof.
  induction s as [|a s IH].
  - split; [done|]. intros H. exfalso.
    eapply has_window_short; [|exact H]. simpl. lia.
  - rewrite search_cvc_cons, has_window_cons, <- IH.
    destruct s as [|b [|c t]].
    + split; [by right | intros [(?&?&?&?&_) | ?]; done].
    + split; [by right | intros [(?&?&?&?&_) | ?]; done].
    + rewrite orb_true_iff, !andb_true_iff. split.
      * intros [[[H1 H2] H3] | H]; [left; eauto 10 | by right].
      * intros [(b' & c' & post & [= <- <- <-] & H1 & H2 & H3) | H];
          [by left | by right].
Qed.

End Patterns.

(** X20. The two spelling tests are the searches of their regular
    expressions: the vowel test is membership in aeiou and the consonant
    test membership in bcdfghjklmnpqrstvwxyz, the VCC test holds exactly
    when a vowel is followed by two consonants somewhere in the word, and
    the CVC test exactly when a vowel stands between two consonants
    somewhere in it. *)
Theorem patterns_are_searches (s : string) :
  (forall c, Re.is_vowel c = in_class c "aeiou")
  /\ (forall c, Re.is_consonant c = in_class c "bcdfghjklmnpqrstvwxyz")
  /\ (Re.search_vcc s = true
      <-> has_window Re.is_vowel Re.is_consonant Re.is_consonant s)
  /\ (Re.search_cvc s = true
      <-> has_window Re.is_consonant Re.is_vowel Re.is_consonant s).
Proof.
  split; [|split; [|split]].
  - intros c. destruct c as [[] [] [] [] [] [] [] []]; reflexivity.
  - intros c. destruct c as [[] [] [] [] [] [] [] []]; reflexivity.
  - apply search_vcc_window.
  - apply search_cvc_window.
Qed.

Lemma patterns_are_searches_witness :
  has_window Re.is_vowel Re.is_consonant Re.is_consonant "computer".
Proof.
  exact (proj1 (proj1 (proj2 (proj2 (patterns_are_searches "computer"))))
           eq_refl).
Defined.

(** ** Export rows *)

Section RowsKeepAll.

Implicit Types (a b : HistoryRecord).

Lemma str_of_nat_inj n m : Py.str_of_nat n = Py.str_of_nat m -> n = m.
Proof. unfold Py.str_of_nat. apply (inj pretty). Qed.

End RowsKeepAll.

(** X21. The row given to the CSV writer keeps the whole record: two
    records with the same row are the same record, so the data rows of the
    export determine the records of the ledger. *)
Theorem csv_row_keeps_record (a b : HistoryRecord) :
  csv_row a = csv_row b -> a = b.
Proof.
  destruct a as [t1 n1 r1 b1 s1 c1 i1], b as [t2 n2 r2 b2 s2 c2 i2].
  unfold csv_row. simpl. intros [= -> Hn -> -> -> Hc ->].
  apply str_of_nat_inj in Hn as ->. by apply str_of_nat_inj in Hc as ->.
Qed.

Lemma csv_row_keeps_record_witness :
  mkHistoryRecord "t" (1 + 1) "CAT" "cat" "cat" 1 EmptyString
  = mkHistoryRecord "t" 2 "CAT" "cat" "cat" (0 + 1) EmptyString.
Proof.
  apply csv_row_keeps_record. reflexivity.
Defined.
